(** * TGChannel-CLink: the relay engine of [simple_relay.py] and the token
    normaliser of [channel_utils.py], embedded and verified.

    Conventions of the embedding.
    - A Python [str] is a [string]; a character is a code point below 256,
      classified the way CPython classifies that range.
    - A Python [int] is a [Z]; [str(n)] on an int is stdpp's [pretty].
    - A reading of [time.time()] is an exact number of seconds, a [Z].
    - A dict is a [gmap]; [None] is [None]. *)

From Stdlib Require Import ZArith Ascii String Lia Sorted.
From stdpp Require Import base gmap strings list pretty.

Local Open Scope Z_scope.

(** ** Python string primitives *)

Module Py.

Definition code (c : ascii) : N := N_of_ascii c.

(** [str.isspace] on one character: U+0009..U+000D, U+001C..U+0020,
    U+0085 and U+00A0 are the white-space code points below 256. *)
Definition isspace (c : ascii) : bool :=
  let n := code c in
  ((9 <=? n) && (n <=? 13) || (28 <=? n) && (n <=? 32)
   || (n =? 133) || (n =? 160))%N.

(** [str.isdigit] on one character: the decimal digits and the three
    superscript digits of Latin-1. *)
Definition isdigit_char (c : ascii) : bool :=
  let n := code c in
  ((48 <=? n) && (n <=? 57) || (n =? 178) || (n =? 179) || (n =? 185))%N.

(** The class [\d] of [re] on a [str] pattern: category Nd. *)
Definition re_digit (c : ascii) : bool :=
  let n := code c in ((48 <=? n) && (n <=? 57))%N.

(** The class [[A-Za-z0-9_]]. *)
Definition re_word (c : ascii) : bool :=
  let n := code c in
  ((65 <=? n) && (n <=? 90) || (97 <=? n) && (n <=? 122)
   || (48 <=? n) && (n <=? 57) || (n =? 95))%N.

Fixpoint all_chars (p : ascii -> bool) (s : string) : bool :=
  match s with
  | EmptyString => true
  | String c r => p c && all_chars p r
  end.

(** [s.isdigit()]: at least one character, all of them digits. *)
Definition isdigit (s : string) : bool :=
  match s with
  | EmptyString => false
  | String _ _ => all_chars isdigit_char s
  end.

(** Truthiness of a [str]. *)
Definition truthy (s : string) : bool :=
  match s with EmptyString => false | String _ _ => true end.

Fixpoint lstrip (s : string) : string :=
  match s with
  | EmptyString => EmptyString
  | String c r => if isspace c then lstrip r else s
  end.

Fixpoint rstrip (s : string) : string :=
  match s with
  | EmptyString => EmptyString
  | String c r =>
      match rstrip r with
      | EmptyString => if isspace c then EmptyString else String c EmptyString
      | r' => String c r'
      end
  end.

(** [s.strip()] *)
Definition strip (s : string) : string := rstrip (lstrip s).

(** [s.startswith(p)] *)
Fixpoint startswith (p s : string) : bool :=
  match p, s with
  | EmptyString, _ => true
  | String a p', String b s' => if decide (a = b) then startswith p' s' else false
  | String _ _, EmptyString => false
  end.

(** [s[1:]] *)
Definition slice1 (s : string) : string :=
  match s with EmptyString => EmptyString | String _ r => r end.

(** The remainder of [s] behind the literal [p], when [s] starts with it. *)
Fixpoint after (p s : string) : option string :=
  match p, s with
  | EmptyString, _ => Some s
  | String a p', String b s' => if decide (a = b) then after p' s' else None
  | String _ _, EmptyString => None
  end.

(** The longest prefix of [s] made of characters of class [p]: what a
    greedy [p+] captures when nothing behind it can fail. *)
Fixpoint span (p : ascii -> bool) (s : string) : string :=
  match s with
  | EmptyString => EmptyString
  | String c r => if p c then String c (span p r) else EmptyString
  end.

(** [x or y] on optional strings, [None] and the empty string being falsy. *)
Definition or_else (x y : option string) : option string :=
  match x with
  | Some (String _ _) => x
  | _ => y
  end.

End Py.

(** ** channel_utils.py *)

(** [re.match(r"https?://t\.me/", s)]: the text behind the literal head.
    The optional [s] is decided by the next character, since [:] must follow. *)
Definition tme_head (s : string) : option string :=
  match Py.after "https://t.me/" s with
  | Some r => Some r
  | None => Py.after "http://t.me/" s
  end.

(** Group 1 of [re.match(r"https?://t\.me/c/(\d+)(?:/\d+)?", s)].  The
    trailing group is optional, so the greedy [\d+] keeps its longest run. *)
Definition match_c_link (s : string) : option string :=
  match tme_head s with
  | Some r =>
      match Py.after "c/" r with
      | Some r' =>
          match Py.span Py.re_digit r' with
          | EmptyString => None
          | g => Some g
          end
      | None => None
      end
  | None => None
  end.

(** Group 1 of [re.match(r"https?://t\.me/([A-Za-z0-9_]+)(?:/\d+)?", s)]. *)
Definition match_user_link (s : string) : option string :=
  match tme_head s with
  | Some r =>
      match Py.span Py.re_word r with
      | EmptyString => None
      | g => Some g
      end
  | None => None
  end.

(** The part of [normalize_channel_token] that runs on the stripped,
    non-empty token. *)
Definition normalize_stripped (s : string) : option string :=
  match match_c_link s with
  | Some g => Some ("-100" +:+ g)
  | None =>
      match match_user_link s with
      | Some g => Some ("@" +:+ g)
      | None =>
          if Py.startswith "@" s then Some ("@" +:+ Py.strip (Py.slice1 s))
          else if Py.startswith "-" s && Py.isdigit (Py.slice1 s) then Some s
          else if Py.isdigit s then
            Some (if Py.startswith "-100" s then s else "-100" +:+ s)
          else None
      end
  end.

Definition normalize_channel_token (token : option string) : option string :=
  match token with
  | None => None
  | Some token =>
      if negb (Py.truthy token) then None
      else
        let s := Py.strip token in
        if negb (Py.truthy s) then None
        else normalize_stripped s
  end.

(** ** simple_relay.py: administrators *)

(** [is_admin], with the module constant [ADMIN_IDS] as its first argument. *)
Definition is_admin (ADMIN_IDS : list Z) (user_id : Z) : bool :=
  negb (bool_decide (ADMIN_IDS <> [])) || bool_decide (user_id ∈ ADMIN_IDS).

(** ** simple_relay.py: messages and fingerprints *)

(** The attributes of a [telegram.Message] the relay reads.  A chat object
    is kept as its id. *)
Record message := {
  message_id : Z;
  chat_id : Z;
  forward_from_chat : option Z;
  forward_from_message_id : option Z;
  media_group_id : option string;
  text : option string;
  caption : option string;
  photo : list string;
  video : option string;
  document : option string
}.

(** An entry of [channels.json]. *)
Record entry := {
  e_id : option Z;
  e_token : option string;
  e_name : option string;
  e_username : option string
}.

(** Truthiness of an optional int: [None] and [0] are falsy. *)
Definition truthy_int (x : option Z) : bool :=
  match x with
  | Some n => negb (n =? 0)
  | None => false
  end.

(** [x or ""] when [x] is an optional string. *)
Definition str_or_empty (x : option string) : string :=
  match x with Some s => s | None => EmptyString end.

(** The test [m.forward_from_chat and m.forward_from_message_id] of
    [_src_key], with the two ids it then reads. *)
Definition forward_origin (m : message) : option (Z * Z) :=
  match forward_from_chat m, forward_from_message_id m with
  | Some c, Some mid => if truthy_int (Some mid) then Some (c, mid) else None
  | _, _ => None
  end.

Section Fingerprint.

(** Python's [hash] on [str] is seeded per process: it is a parameter. *)
Variable hash : string -> Z.

(** [(m.text or m.caption or "").strip()] *)
Definition stripped_text (m : message) : string :=
  Py.strip (str_or_empty (Py.or_else (text m) (caption m))).

(** The branches of [_src_key] below its forwarded case. *)
Definition content_key (m : message) : string :=
  let text := stripped_text m in
  if Py.truthy text
  then "hash:" +:+ pretty (Z.land (hash text) 0xFFFFFFFF)
  else "self:" +:+ pretty (chat_id m) +:+ ":" +:+ pretty (message_id m).

Definition _src_key (u_message : option message) : string :=
  match u_message with
  | None => EmptyString
  | Some m =>
      match forward_origin m with
      | Some (c, mid) => "src:" +:+ pretty c +:+ ":" +:+ pretty mid
      | None => content_key m
      end
  end.

(** What two messages must share for [_src_key] to give them one key,
    branch by branch. *)
Definition same_key_data (m1 m2 : message) : Prop :=
  match forward_origin m1, forward_origin m2 with
  | Some o1, Some o2 => o1 = o2
  | None, None =>
      match Py.truthy (stripped_text m1), Py.truthy (stripped_text m2) with
      | true, true =>
          Z.land (hash (stripped_text m1)) 0xFFFFFFFF
          = Z.land (hash (stripped_text m2)) 0xFFFFFFFF
      | false, false =>
          chat_id m1 = chat_id m2 /\ message_id m1 = message_id m2
      | _, _ => False
      end
  | _, _ => False
  end.

End Fingerprint.

Definition _src_group_key (m : message) : string :=
  match forward_from_chat m, media_group_id m with
  | Some c, Some (String a g) => "group:" +:+ pretty c +:+ ":" +:+ String a g
  | _, Some (String a g) => "group::" +:+ String a g
  | _, _ => "group:self:" +:+ pretty (chat_id m)
  end.

(** ** simple_relay.py: the state of [SimpleRelay] *)

(** Attributes that [__init__] sets and nothing reassigns. *)
Definition sent_ttl : Z := 6 * 3600.
Definition max_concurrency : Z := 8.
Definition group_ttl : Z := 7200.

Record relay := {
  sent_cache : gmap (Z * string) Z;
  media_group_buffer : gmap string (list message);
  media_group_tasks : gmap string Z;
  progress_messages : gmap Z nat;
  progress_tokens : gmap Z Z;
  processed_groups : gmap string Z;
  group_order : gmap string Z;
  group_next_seq : Z;
  group_seq_counter : Z
}.

(** [SimpleRelay.__init__] *)
Definition __init__ : relay := {|
  sent_cache := ∅;
  media_group_buffer := ∅;
  media_group_tasks := ∅;
  progress_messages := ∅;
  progress_tokens := ∅;
  processed_groups := ∅;
  group_order := ∅;
  group_next_seq := 0;
  group_seq_counter := 0
|}.

Definition set_sent_cache (c : gmap (Z * string) Z) (r : relay) : relay := {|
  sent_cache := c;
  media_group_buffer := media_group_buffer r;
  media_group_tasks := media_group_tasks r;
  progress_messages := progress_messages r;
  progress_tokens := progress_tokens r;
  processed_groups := processed_groups r;
  group_order := group_order r;
  group_next_seq := group_next_seq r;
  group_seq_counter := group_seq_counter r
|}.

Definition set_progress (ms : gmap Z nat) (ts : gmap Z Z) (r : relay) : relay := {|
  sent_cache := sent_cache r;
  media_group_buffer := media_group_buffer r;
  media_group_tasks := media_group_tasks r;
  progress_messages := ms;
  progress_tokens := ts;
  processed_groups := processed_groups r;
  group_order := group_order r;
  group_next_seq := group_next_seq r;
  group_seq_counter := group_seq_counter r
|}.

Definition set_processed_groups (g : gmap string Z) (r : relay) : relay := {|
  sent_cache := sent_cache r;
  media_group_buffer := media_group_buffer r;
  media_group_tasks := media_group_tasks r;
  progress_messages := progress_messages r;
  progress_tokens := progress_tokens r;
  processed_groups := g;
  group_order := group_order r;
  group_next_seq := group_next_seq r;
  group_seq_counter := group_seq_counter r
|}.

Definition set_media_group_buffer (b : gmap string (list message)) (r : relay) : relay := {|
  sent_cache := sent_cache r;
  media_group_buffer := b;
  media_group_tasks := media_group_tasks r;
  progress_messages := progress_messages r;
  progress_tokens := progress_tokens r;
  processed_groups := processed_groups r;
  group_order := group_order r;
  group_next_seq := group_next_seq r;
  group_seq_counter := group_seq_counter r
|}.

Definition set_media_group_tasks (t : gmap string Z) (r : relay) : relay := {|
  sent_cache := sent_cache r;
  media_group_buffer := media_group_buffer r;
  media_group_tasks := t;
  progress_messages := progress_messages r;
  progress_tokens := progress_tokens r;
  processed_groups := processed_groups r;
  group_order := group_order r;
  group_next_seq := group_next_seq r;
  group_seq_counter := group_seq_counter r
|}.

Definition set_group_next_seq (n : Z) (r : relay) : relay := {|
  sent_cache := sent_cache r;
  media_group_buffer := media_group_buffer r;
  media_group_tasks := media_group_tasks r;
  progress_messages := progress_messages r;
  progress_tokens := progress_tokens r;
  processed_groups := processed_groups r;
  group_order := group_order r;
  group_next_seq := n;
  group_seq_counter := group_seq_counter r
|}.

(** [_prune_cache], [now] being the reading of [time.time()]. *)
Definition _prune_cache (now : Z) (r : relay) : relay :=
  set_sent_cache (filter (λ kt, ¬ (now - kt.2 > sent_ttl)) (sent_cache r)) r.

(** [_prune_groups] *)
Definition _prune_groups (now : Z) (r : relay) : relay :=
  set_processed_groups (filter (λ kt, ¬ (now - kt.2 > group_ttl)) (processed_groups r)) r.

(** [self.sent_cache[key] = time.time()] *)
Definition record_sent (key : Z * string) (now : Z) (r : relay) : relay :=
  set_sent_cache (<[key := now]> (sent_cache r)) r.

(** The test of [send_to_one] after its [_prune_cache()]:
    [src_key and key in self.sent_cache]. *)
Definition single_skips (now : Z) (r : relay) (cid : Z) (src_key : string) : bool :=
  Py.truthy src_key
  && bool_decide (is_Some (sent_cache (_prune_cache now r) !! (cid, src_key))).

(** The test of [send_album_to_one] after its [_prune_cache()]:
    [key in self.sent_cache]. *)
Definition album_skips (now : Z) (r : relay) (cid : Z) (group_src_key : string) : bool :=
  bool_decide (is_Some (sent_cache (_prune_cache now r) !! (cid, group_src_key))).

(** What the cache goes through between a record and a later lookup: the
    prunes of other lookups, and records. *)
Inductive cache_op :=
| Prune (now : Z)
| Record (key : Z * string) (now : Z).

Definition cache_step (r : relay) (op : cache_op) : relay :=
  match op with
  | Prune now => _prune_cache now r
  | Record key now => record_sent key now r
  end.


(** ** simple_relay.py: the platform as the senders see it *)

(** What a call can raise.  [TimedOut] is a [NetworkError]; [RetryAfter] is
    not; [CancelledError] is a [BaseException] outside [Exception]. *)
Inductive exn :=
| RetryAfter (retry_after : Z)
| TimedOut
| NetworkError
| OtherError (what : string)
| RuntimeError (msg : string)
| CancelledError.

(** [isinstance(e, Exception)] *)
Definition is_Exception (e : exn) : bool :=
  match e with CancelledError => false | _ => true end.

(** The tests of the [except] clauses: [isinstance(e, RetryAfter)] and
    [isinstance(e, (TimedOut, NetworkError))]. *)
Definition rate_limited (e : exn) : bool :=
  match e with RetryAfter _ => true | _ => false end.

Definition transient (e : exn) : bool :=
  match e with TimedOut | NetworkError => true | _ => false end.

(** The platform's answer to one call. *)
Inductive answer :=
| Returned (v : Z)
| Raised (e : exn).

Inductive api :=
| send_message | send_photo | send_video | send_document | send_media_group.

(** What a coroutine does that the outside can see. *)
Inductive event :=
| EvCall (f : api) (chat : Z)
| EvSleep (delay : Z).

(** How far a coroutine got against the answers it was given: it returned,
    it raised, or it is still awaiting an answer. *)
Inductive res (A : Type) :=
| Ret (a : A)
| Raise (e : exn)
| Pending.
Arguments Ret {A} a.
Arguments Raise {A} e.
Arguments Pending {A}.

Definition after_events {A} (evs : list event) (x : list event * A) : list event * A :=
  (evs ++ x.1, x.2).

(** The number of calls to the platform in a trace. *)
Fixpoint calls (tr : list event) : nat :=
  match tr with
  | [] => O
  | EvCall _ _ :: tr' => S (calls tr')
  | EvSleep _ :: tr' => calls tr'
  end.

(** The delays slept in a trace, in order. *)
Fixpoint sleeps (tr : list event) : list Z :=
  match tr with
  | [] => []
  | EvCall _ _ :: tr' => sleeps tr'
  | EvSleep d :: tr' => d :: sleeps tr'
  end.

(** The loop of [_send_with_backoff] from a given value of [attempt]; the
    platform's answers to the successive calls are [script], and each turn
    of the loop uses up one of them.  A sleep is logged with the delay it
    was asked for. *)
Fixpoint backoff_loop (func : api) (chat max_retries attempt : Z)
    (script : list answer) : list event * res Z :=
  match script with
  | [] =>
      if attempt <? max_retries then ([EvCall func chat], Pending)
      else ([], Raise (RuntimeError "send failed after retries"))
  | a :: script' =>
      if attempt <? max_retries then
        match a with
        | Returned v => ([EvCall func chat], Ret v)
        | Raised (RetryAfter retry_after) =>
            after_events [EvCall func chat; EvSleep (retry_after + 1)]
              (backoff_loop func chat max_retries attempt script')
        | Raised TimedOut | Raised NetworkError =>
            let attempt := attempt + 1 in
            after_events [EvCall func chat; EvSleep (1 * attempt)]
              (backoff_loop func chat max_retries attempt script')
        | Raised e =>
            if is_Exception e then
              let attempt := attempt + 1 in
              after_events [EvCall func chat; EvSleep 1]
                (backoff_loop func chat max_retries attempt script')
            else ([EvCall func chat], Raise e)
        end
      else ([], Raise (RuntimeError "send failed after retries"))
  end.

Definition _send_with_backoff (func : api) (chat : Z) (max_retries : Z)
    (script : list answer) : list event * res Z :=
  backoff_loop func chat max_retries 0 script.

(** The default of the keyword argument [max_retries]. *)
Definition default_max_retries : Z := 3.

Definition _send_media_group_no_retry (chat : Z) (script : list answer)
    : list event * res Z :=
  match script with
  | [] => ([EvCall send_media_group chat], Pending)
  | Returned v :: _ => ([EvCall send_media_group chat], Ret v)
  | Raised (RetryAfter retry_after) :: script' =>
      after_events [EvCall send_media_group chat; EvSleep (retry_after + 1)]
        match script' with
        | [] => ([EvCall send_media_group chat], Pending)
        | Returned v :: _ => ([EvCall send_media_group chat], Ret v)
        | Raised e :: _ => ([EvCall send_media_group chat], Raise e)
        end
  | Raised e :: _ => ([EvCall send_media_group chat], Raise e)
  end.

(** The method [_send_one] picks for a message, [None] in its last branch. *)
Definition send_method (m : message) : option api :=
  if Py.truthy (str_or_empty (text m)) then Some send_message
  else if bool_decide (photo m <> []) then Some send_photo
  else if bool_decide (is_Some (video m)) then Some send_video
  else if bool_decide (is_Some (document m)) then Some send_document
  else None.

(** [_send_one]: every [Exception] becomes [False].  The text and entities
    that [_process_links_for_ptb] prepares are the payload of the call and
    are not kept in the trace. *)
Definition _send_one (m : message) (cid : Z) (script : list answer)
    : list event * res bool :=
  match send_method m with
  | None => ([], Ret false)
  | Some f =>
      let '(tr, r) := _send_with_backoff f cid default_max_retries script in
      (tr, match r with
           | Ret _ => Ret true
           | Raise e => if is_Exception e then Ret false else Raise e
           | Pending => Pending
           end)
  end.

(** What one destination task meets: the outcome of [_resolve_chat_id] when
    the entry has no id, the clock at [_prune_cache], the platform's answers
    to the sends, the clock when the delivery is recorded. *)
Record send_env := {
  resolved : res Z;
  now_prune : Z;
  script : list answer;
  now_record : Z
}.

(** A destination task's outcome: the relay afterwards, what it did, and
    what [gather] collects from it. *)
Record sent := {
  s_relay : relay;
  s_trace : list event;
  s_result : res (bool * option (Z * string))
}.

(** [cid = int(entry.get("id")) if entry.get("id") is not None
          else await self._resolve_chat_id(...)] *)
Definition entry_cid (e : entry) (env : send_env) : res Z :=
  match e_id e with
  | Some i => Ret i
  | None => resolved env
  end.

(** The closure [send_to_one] of [handle_forward]. *)
Definition send_to_one (r : relay) (env : send_env) (m : message)
    (src_key : string) (e : entry) : sent :=
  match entry_cid e env with
  | Pending => {| s_relay := r; s_trace := []; s_result := Pending |}
  | Raise x =>
      {| s_relay := r; s_trace := [];
         s_result := if is_Exception x then Ret (false, None) else Raise x |}
  | Ret cid =>
      let key := (cid, src_key) in
      let r1 := _prune_cache (now_prune env) r in
      if single_skips (now_prune env) r cid src_key
      then {| s_relay := r1; s_trace := []; s_result := Ret (true, Some key) |}
      else
        let '(tr, ok) := _send_one m cid (script env) in
        match ok with
        | Ret true =>
            {| s_relay := record_sent key (now_record env) r1; s_trace := tr;
               s_result := Ret (true, Some key) |}
        | Ret false =>
            {| s_relay := r1; s_trace := tr; s_result := Ret (false, Some key) |}
        | Raise x =>
            {| s_relay := r1; s_trace := tr;
               s_result := if is_Exception x then Ret (false, Some key) else Raise x |}
        | Pending => {| s_relay := r1; s_trace := tr; s_result := Pending |}
        end
  end.

(** The parts of an album that [send_album_to_one] turns into media. *)
Definition has_media (mm : message) : bool :=
  bool_decide (photo mm <> []) || bool_decide (is_Some (video mm))
  || bool_decide (is_Some (document mm)).

Definition media_list (msgs : list message) : list message :=
  List.filter has_media msgs.

(** The closure [send_album_to_one] of [_flush_media_group]. *)
Definition send_album_to_one (r : relay) (env : send_env) (msgs : list message)
    (group_src_key : string) (e : entry) : sent :=
  match entry_cid e env with
  | Pending => {| s_relay := r; s_trace := []; s_result := Pending |}
  | Raise x =>
      {| s_relay := r; s_trace := [];
         s_result := if is_Exception x then Ret (false, None) else Raise x |}
  | Ret cid =>
      let key := (cid, group_src_key) in
      let r1 := _prune_cache (now_prune env) r in
      if album_skips (now_prune env) r cid group_src_key
      then {| s_relay := r1; s_trace := []; s_result := Ret (true, Some key) |}
      else
        match media_list msgs with
        | [] => {| s_relay := r1; s_trace := []; s_result := Ret (false, Some key) |}
        | _ :: _ =>
            let '(tr, sent_ok) := _send_media_group_no_retry cid (script env) in
            match sent_ok with
            | Ret _ =>
                {| s_relay := record_sent key (now_record env) r1; s_trace := tr;
                   s_result := Ret (true, Some key) |}
            | Raise x =>
                {| s_relay := r1; s_trace := tr;
                   s_result := if is_Exception x then Ret (false, Some key) else Raise x |}
            | Pending => {| s_relay := r1; s_trace := tr; s_result := Pending |}
            end
        end
  end.

(** ** simple_relay.py: the progress message *)

(** The marks a status line starts with: the hourglass, the check mark and
    the cross. *)
Inductive mark := Waiting | Succeeded | Failed.

(** A line of the progress text: its heading, or a mark and a name.  The
    text of a message is kept as its list of lines. *)
Inductive line :=
| Heading
| Status (mk : mark) (name : string).

(** The chat as the platform shows it: the text of every message the bot
    posted there, a message's handle being its position. *)
Abbreviation chat_view := (list (list line)).

(** The dict that [_init_progress_message] returns, together with the
    ["src_key"] its callers add. *)
Record progress := {
  p_message : nat;
  p_lines : list line;
  p_index : gmap string nat;
  p_last : Z;
  p_chat_id : option Z;
  p_token : Z;
  p_src_key : option string
}.

(** [str(e.get("id"))] *)
Definition str_of_id (i : option Z) : string :=
  match i with Some n => pretty n | None => "None" end.

(** [e.get("name") or e.get("username") or e.get("token") or str(e.get("id"))] *)
Definition display_name (e : entry) : string :=
  match Py.or_else (e_name e) (Py.or_else (e_username e) (e_token e)) with
  | Some (String a s) => String a s
  | _ => str_of_id (e_id e)
  end.

(** The key of an entry in the index; [dflt] is [str(i)] when the index is
    built and the empty string when it is read. *)
Definition idx_key (dflt : string) (e : entry) : string :=
  match e_id e with
  | Some n => pretty n
  | None =>
      match e_token e with
      | Some (String a s) => String a s
      | _ => dflt
      end
  end.

(** The loop of [_init_progress_message], from position [i]. *)
Fixpoint init_lines (i : nat) (es : list entry)
    (acc : list line * gmap string nat) : list line * gmap string nat :=
  match es with
  | [] => acc
  | e :: es' =>
      init_lines (S i) es'
        (acc.1 ++ [Status Waiting (display_name e)],
         <[idx_key (pretty i) e := i]> acc.2)
  end.

(** [_init_progress_message]: [reply] is what [reply_text] raised, if it
    did; [now] is the clock read for the token. *)
Definition _init_progress_message (r : relay) (view : chat_view)
    (reply : option exn) (now : Z) (reply_chat_id : Z)
    (channel_entries : list entry) : res progress * relay * chat_view :=
  let '(lines, index) := init_lines 1 channel_entries ([Heading], ∅) in
  match reply with
  | Some x => (Raise x, r, view)
  | None =>
      let msg := length view in
      let token := now in
      (Ret {| p_message := msg; p_lines := lines; p_index := index;
              p_last := 0; p_chat_id := Some reply_chat_id;
              p_token := token; p_src_key := None |},
       set_progress (<[reply_chat_id := msg]> (progress_messages r))
                    (<[reply_chat_id := token]> (progress_tokens r)) r,
       view ++ [lines])
  end.

(** [progress["src_key"] = src_key] *)
Definition with_src_key (k : string) (p : progress) : progress :=
  {| p_message := p_message p; p_lines := p_lines p; p_index := p_index p;
     p_last := p_last p; p_chat_id := p_chat_id p; p_token := p_token p;
     p_src_key := Some k |}.

(** What [gather(..., return_exceptions=True)] holds for one destination. *)
Inductive gathered :=
| GTuple (status : bool) (key : option (Z * string))
| GPlain (is_true : bool)
| GException (e : exn).

(** The status [_finalize_progress_message] settles on for one entry. *)
Definition final_status (r : relay) (fallback_key : bool)
    (src_key : option string) (e : entry) (g : gathered) : bool :=
  let '(status, key) :=
    match g with
    | GTuple s k => (s, k)
    | GPlain b => (b, None)
    | GException _ => (false, None)
    end in
  let status :=
    match key with
    | Some k =>
        if negb status && bool_decide (is_Some (sent_cache r !! k))
        then true else status
    | None => status
    end in
  if negb status && fallback_key && bool_decide (key = None) then
    match e_id e, src_key with
    | Some target_id, Some (String a s) =>
        if bool_decide (is_Some (sent_cache r !! (target_id, String a s)))
        then true else status
    | _, _ => status
    end
  else status.

(** The loop of [_finalize_progress_message] over [zip(entries, results)];
    the boolean is false when [progress["lines"][idx] = ...] raised
    [IndexError], which ends the loop with the lines changed so far. *)
Fixpoint finalize_lines (r : relay) (fallback_key : bool) (p : progress)
    (pairs : list (entry * gathered)) (lines : list line) : list line * bool :=
  match pairs with
  | [] => (lines, true)
  | (e, g) :: pairs' =>
      let status := final_status r fallback_key (p_src_key p) e g in
      match p_index p !! idx_key EmptyString e with
      | Some (S i) =>
          if decide (S i < length lines)%nat then
            finalize_lines r fallback_key p pairs'
              (<[S i := Status (if status then Succeeded else Failed)
                               (display_name e)]> lines)
          else (lines, false)
      | _ => finalize_lines r fallback_key p pairs' lines
      end
  end.

Definition with_lines (ls : list line) (last : Z) (p : progress) : progress :=
  {| p_message := p_message p; p_lines := ls; p_index := p_index p;
     p_last := last; p_chat_id := p_chat_id p; p_token := p_token p;
     p_src_key := p_src_key p |}.

(** [_finalize_progress_message]: [now] is the clock read for ["last"],
    [edit] what [edit_text] raised, if it did. *)
Definition _finalize_progress_message (r : relay) (view : chat_view)
    (now : Z) (edit : option exn) (p : progress) (entries : list entry)
    (results : list gathered) (fallback_key : bool)
    : res unit * progress * chat_view :=
  match p_chat_id p with
  | None => (Ret tt, p, view)
  | Some chat =>
      if bool_decide (progress_tokens r !! chat <> Some (p_token p))
      then (Ret tt, p, view)
      else
        let '(lines, ok) :=
          finalize_lines r fallback_key p (zip entries results) (p_lines p) in
        if ok then
          match edit with
          | None =>
              (Ret tt, with_lines lines now p, <[p_message p := lines]> view)
          | Some x =>
              (if is_Exception x then Ret tt else Raise x,
               with_lines lines now p, view)
          end
        else (Ret tt, with_lines lines (p_last p) p, view)
  end.

(** ** simple_relay.py: flushing an album *)

(** [msgs.sort(key=lambda x: x.message_id)], which is stable. *)
Fixpoint insert_by_id (x : message) (l : list message) : list message :=
  match l with
  | [] => [x]
  | y :: l' =>
      if message_id x <=? message_id y then x :: l
      else y :: insert_by_id x l'
  end.

Definition sort_by_id (l : list message) : list message :=
  foldr insert_by_id [] l.

(** Where the coroutine [_flush_media_group] is suspended: in its debounce
    sleep, in a sleep of its wait for the ordering token, in the dispatch
    that follows [entered_sequence = True]; or it has run its [finally]. *)
Inductive flush_pc := AtDebounce | AtOrderWait | AtDispatch | Finished.

(** The coroutine's frame. *)
Record flush_task := {
  f_gid : string;
  f_pc : flush_pc;
  entered_sequence : bool;
  my_seq : Z;
  f_msgs : list message;
  f_group_src_key : string
}.

Definition flush_start (gid : string) : flush_task :=
  {| f_gid := gid; f_pc := AtDebounce; entered_sequence := false;
     my_seq := -1; f_msgs := []; f_group_src_key := EmptyString |}.

Definition at_pc (pc : flush_pc) (t : flush_task) : flush_task :=
  {| f_gid := f_gid t; f_pc := pc; entered_sequence := entered_sequence t;
     my_seq := my_seq t; f_msgs := f_msgs t;
     f_group_src_key := f_group_src_key t |}.

(** What the dispatch of an album (from [_init_progress_message] to
    [_finalize_progress_message]) writes in the relay: the delivery cache
    and the two progress dicts.  It never assigns [group_next_seq]. *)
Record dispatch_effect := {
  d_sent_cache : gmap (Z * string) Z;
  d_progress_messages : gmap Z nat;
  d_progress_tokens : gmap Z Z
}.

Definition dispatched (eff : dispatch_effect) (r : relay) : relay :=
  set_progress (d_progress_messages eff) (d_progress_tokens eff)
    (set_sent_cache (d_sent_cache eff) r).

(** What resumes the coroutine, and what the other coroutines do between
    its steps: an awaited sleep returns, with the clock readings of the
    code that follows; an await raises, as it does when the task is
    cancelled; the dispatch comes to its end, with or without an exception,
    having written [eff]; other flushes advance the counter [n] times. *)
Inductive flush_event :=
| Resume (now_prune now_mark : Z)
| Threw (e : exn)
| DispatchEnded (raised : option exn) (eff : dispatch_effect)
| OthersAdvanced (n : nat).

(** The [finally] block; the cancellation it asks for is the scheduler's
    business. *)
Definition flush_finally (t : flush_task) (r : relay) : flush_task * relay :=
  let r1 :=
    if entered_sequence t then set_group_next_seq (group_next_seq r + 1) r
    else r in
  let r2 := set_media_group_buffer (delete (f_gid t) (media_group_buffer r1)) r1 in
  let r3 := set_media_group_tasks (delete (f_gid t) (media_group_tasks r2)) r2 in
  (at_pc Finished t, r3).

(** One test of [while my_seq != self.group_next_seq], and
    [entered_sequence = True] behind the loop. *)
Definition order_gate (t : flush_task) (r : relay) : flush_task * relay :=
  if bool_decide (my_seq t <> group_next_seq r) then (at_pc AtOrderWait t, r)
  else
    ({| f_gid := f_gid t; f_pc := AtDispatch; entered_sequence := true;
        my_seq := my_seq t; f_msgs := f_msgs t;
        f_group_src_key := f_group_src_key t |}, r).

(** From the end of the debounce sleep to the next suspension. *)
Definition after_debounce (now_prune now_mark : Z) (t : flush_task) (r : relay)
    : flush_task * relay :=
  match default [] (media_group_buffer r !! f_gid t) with
  | [] => flush_finally t r
  | m0 :: ms =>
      let msgs := sort_by_id (m0 :: ms) in
      let r0 := set_media_group_buffer (<[f_gid t := msgs]> (media_group_buffer r)) r in
      let group_src_key := _src_group_key (default m0 (head msgs)) in
      let r1 := _prune_groups now_prune r0 in
      if bool_decide (is_Some (processed_groups r1 !! group_src_key))
      then flush_finally t r1
      else
        let r2 := set_processed_groups
                    (<[group_src_key := now_mark]> (processed_groups r1)) r1 in
        order_gate
          {| f_gid := f_gid t; f_pc := f_pc t;
             entered_sequence := entered_sequence t;
             my_seq := default 0 (group_order r2 !! f_gid t);
             f_msgs := msgs; f_group_src_key := group_src_key |} r2
  end.

Definition flush_step (ev : flush_event) (s : flush_task * relay)
    : flush_task * relay :=
  let '(t, r) := s in
  match ev, f_pc t with
  | OthersAdvanced n, _ =>
      (t, set_group_next_seq (group_next_seq r + Z.of_nat n) r)
  | Resume now_prune now_mark, AtDebounce => after_debounce now_prune now_mark t r
  | Resume _ _, AtOrderWait => order_gate t r
  | Threw _, AtDebounce | Threw _, AtOrderWait | Threw _, AtDispatch =>
      flush_finally t r
  | DispatchEnded _ eff, AtDispatch => flush_finally t (dispatched eff r)
  | _, _ => (t, r)
  end.

Definition run_flush (evs : list flush_event) (s : flush_task * relay)
    : flush_task * relay :=
  foldl (λ s ev, flush_step ev s) s evs.

(** How often the other coroutines advanced the counter during a run. *)
Definition others_total (evs : list flush_event) : Z :=
  foldr (λ ev acc, match ev with OthersAdvanced n => Z.of_nat n + acc | _ => acc end)
        0 evs.

(** ** Sample data for the examples *)

Definition text_message (mid chat : Z) (body : string) : message :=
  {| message_id := mid; chat_id := chat; forward_from_chat := None;
     forward_from_message_id := None; media_group_id := None;
     text := Some body; caption := None; photo := []; video := None;
     document := None |}.

Definition forwarded_message (mid chat from from_mid : Z) (body : string) : message :=
  {| message_id := mid; chat_id := chat; forward_from_chat := Some from;
     forward_from_message_id := Some from_mid; media_group_id := None;
     text := Some body; caption := None; photo := []; video := None;
     document := None |}.

Definition album_part (mid chat : Z) (gid file : string) : message :=
  {| message_id := mid; chat_id := chat; forward_from_chat := None;
     forward_from_message_id := None; media_group_id := Some gid;
     text := None; caption := None; photo := [file]; video := None;
     document := None |}.

Definition channel (cid : Z) (name : string) : entry :=
  {| e_id := Some cid; e_token := Some (pretty cid); e_name := Some name;
     e_username := None |}.

(** A destination task for which nothing has to be resolved. *)
Definition env_at (prune_time : Z) (answers : list answer) (record_time : Z) : send_env :=
  {| resolved := Pending; now_prune := prune_time; script := answers;
     now_record := record_time |}.

(** A relay that has buffered the two parts of album [g1], the first album
    it ever saw, while [held] albums were let through before. *)
Definition relay_with_album (held : Z) : relay :=
  {| sent_cache := ∅;
     media_group_buffer :=
       {[ "g1" := [album_part 12 5 "g1" "f2"; album_part 11 5 "g1" "f1"] ]};
     media_group_tasks := {[ "g1" := 1 ]};
     progress_messages := ∅;
     progress_tokens := ∅;
     processed_groups := ∅;
     group_order := {[ "g1" := 0 ]};
     group_next_seq := held;
     group_seq_counter := 1 |}.

Definition no_effect : dispatch_effect :=
  {| d_sent_cache := ∅; d_progress_messages := ∅; d_progress_tokens := ∅ |}.

(** The session of a first relay from chat 5 to the channel [news], opened
    at time 100 in a fresh relay and an empty chat. *)
Definition first_session : progress :=
  {| p_message := 0; p_lines := [Heading; Status Waiting "news"];
     p_index := {[ "-1007" := 1%nat ]}; p_last := 0; p_chat_id := Some 5;
     p_token := 100; p_src_key := None |}.

(** The session of a second relay from the same chat, opened at time 200. *)
Definition second_session : progress :=
  {| p_message := 1; p_lines := [Heading; Status Waiting "news"];
     p_index := {[ "-1007" := 1%nat ]}; p_last := 0; p_chat_id := Some 5;
     p_token := 200; p_src_key := None |}.

(** ** channel_utils.py: removing duplicates *)

(** [str.lower] on one character: the capital letters below 256 are
    [A]..[Z] and U+00C0..U+00DE without the multiplication sign. *)
Definition lower_char (c : ascii) : ascii :=
  let n := Py.code c in
  if ((65 <=? n) && (n <=? 90)
      || (192 <=? n) && (n <=? 222) && negb (n =? 215))%N
  then ascii_of_N (n + 32) else c.

(** [s.lower()] *)
Fixpoint str_lower (s : string) : string :=
  match s with
  | EmptyString => EmptyString
  | String c r => String (lower_char c) (str_lower r)
  end.

(** [normalize_channel_token(ch) or ch] *)
Definition norm_or_self (ch : string) : string :=
  match normalize_channel_token (Some ch) with
  | Some (String a t) => String a t
  | _ => ch
  end.

(** [norm.lower() if norm.startswith('@') else norm] *)
Definition channel_key (norm : string) : string :=
  if Py.startswith "@" norm then str_lower norm else norm.

(** The loop of [dedup_channels], with its [seen] and [result]. *)
Fixpoint dedup_loop (channels : list string) (seen : gset string)
    (result : list string) : list string :=
  match channels with
  | [] => result
  | ch :: channels' =>
      let norm := norm_or_self ch in
      let key := channel_key norm in
      if decide (key ∈ seen) then dedup_loop channels' seen result
      else dedup_loop channels' ({[ key ]} ∪ seen) (result ++ [norm])
  end.

Definition dedup_channels (channels : list string) : list string :=
  dedup_loop channels ∅ [].

(** ** simple_relay.py: the keyboard of [/remove] and its callback *)

(** What a button shows: the bin and a channel's name, or "close". *)
Inductive label :=
| Bin (disp : string)
| Close.

Record button := {
  b_label : label;
  callback_data : string
}.

(** [_entry_display] *)
Definition _entry_display (e : entry) : string := display_name e.

(** The button [_build_remove_keyboard] makes for an entry. *)
Definition remove_button (e : entry) : button :=
  {| b_label := Bin (_entry_display e);
     callback_data :=
       match e_id e with
       | Some i => "remove:id:" +:+ pretty i
       | None => "remove:tok:" +:+ str_or_empty (e_token e)
       end |}.

(** The loop of [_build_remove_keyboard], with its [buttons] and [row]. *)
Fixpoint keyboard_loop (entries : list entry) (buttons : list (list button))
    (row : list button) : list (list button) * list button :=
  match entries with
  | [] => (buttons, row)
  | e :: entries' =>
      let row := row ++ [remove_button e] in
      if decide (length row = 2%nat)
      then keyboard_loop entries' (buttons ++ [row]) []
      else keyboard_loop entries' buttons row
  end.

Definition _build_remove_keyboard (entries : list entry) : list (list button) :=
  let '(buttons, row) := keyboard_loop entries [] [] in
  let buttons := match row with [] => buttons | _ :: _ => buttons ++ [row] end in
  buttons ++ [[ {| b_label := Close; callback_data := "remove:close" |} ]].

(** [s.partition(":")] when [s] has a colon: the text before the first
    colon and the text behind it. *)
Fixpoint cut_colon (s : string) : option (string * string) :=
  match s with
  | EmptyString => None
  | String c r =>
      if decide (c = ":"%char) then Some (EmptyString, r)
      else match cut_colon r with
           | Some (a, b) => Some (String c a, b)
           | None => None
           end
  end.

(** [data.split(":", 2)] *)
Definition split_colon_2 (data : string) : list string :=
  match cut_colon data with
  | None => [data]
  | Some (a, r) =>
      match cut_colon r with
      | None => [a; r]
      | Some (b, c) => [a; b; c]
      end
  end.

(** What [cb_remove] does about the registry for an administrator's click:
    it closes the keyboard, ignores the click, finds nothing to remove, or
    saves the entries it keeps. *)
Inductive removal :=
| Closed
| Ignored
| NotFound
| Saved (kept : list entry).

Definition cb_remove (data : string) (entries : list entry) : removal :=
  if decide (data = "remove:close") then Closed
  else
    match split_colon_2 data with
    | [_; kind; val] =>
        let kept :=
          if decide (kind = "id")
          then List.filter (λ e, negb (bool_decide (str_of_id (e_id e) = val))) entries
          else List.filter
                 (λ e, negb (bool_decide
                    (str_or_empty (e_token e) = val))) entries in
        if decide (length kept = length entries) then NotFound else Saved kept
    | _ => Ignored
    end.

(** ** simple_relay.py: links in entities *)

(** The attributes of a [MessageEntity] that the relay reads and sets. *)
Record entity := {
  ent_type : string;
  ent_offset : Z;
  ent_length : Z;
  ent_url : option string
}.

(** [s.lstrip('-')] *)
Fixpoint lstrip_minus (s : string) : string :=
  match s with
  | String "-" r => lstrip_minus r
  | _ => s
  end.

(** The channel id that [_process_links_for_ptb] writes into links. *)
Definition new_channel_id (target_chat_id : Z) : string :=
  let target_id_str := pretty target_chat_id in
  match Py.after "-100" target_id_str with
  | Some rest => rest
  | None => lstrip_minus target_id_str
  end.

(** Group 2 of [re.match(r'https://t\.me/c/(\d+)/(\d+)', url)]. *)
Definition match_c_message (url : string) : option string :=
  match Py.after "https://t.me/c/" url with
  | Some r =>
      match Py.span Py.re_digit r with
      | EmptyString => None
      | g1 =>
          match Py.after (g1 +:+ "/") r with
          | Some r' =>
              match Py.span Py.re_digit r' with
              | EmptyString => None
              | g2 => Some g2
              end
          | None => None
          end
      end
  | None => None
  end.

(** One turn of the loop over the entities. *)
Definition rewrite_entity (target_chat_id : Z) (ent : entity) : entity :=
  if decide (ent_type ent = "text_link") then
    match ent_url ent with
    | Some (String a u) =>
        match match_c_message (String a u) with
        | Some msg_id =>
            {| ent_type := "text_link"; ent_offset := ent_offset ent;
               ent_length := ent_length ent;
               ent_url := Some ("https://t.me/c/" +:+ new_channel_id target_chat_id
                                +:+ "/" +:+ msg_id) |}
        | None => ent
        end
    | _ => ent
    end
  else ent.

(** [_process_links_for_ptb] on the text and the entities it picked from
    the message; [process_telegram_links] is the function of that name in
    [link_processor]. *)
Definition _process_links_for_ptb (process_telegram_links : string -> Z -> string)
    (text : string) (entities : list entity) (target_chat_id : Z)
    : string * list entity :=
  (process_telegram_links text target_chat_id,
   map (rewrite_entity target_chat_id) entities).

(** ** simple_relay.py: buffering the parts of an album *)

Definition set_group_order (o : gmap string Z) (counter : Z) (r : relay) : relay := {|
  sent_cache := sent_cache r;
  media_group_buffer := media_group_buffer r;
  media_group_tasks := media_group_tasks r;
  progress_messages := progress_messages r;
  progress_tokens := progress_tokens r;
  processed_groups := processed_groups r;
  group_order := o;
  group_next_seq := group_next_seq r;
  group_seq_counter := counter
|}.

(** [str(m.media_group_id)] *)
Definition str_of_group (m : message) : string :=
  match media_group_id m with Some g => g | None => "None" end.

(** [_buffer_media_group]; [task] is the flush task it creates.  The task
    it replaces is asked to cancel, which is the scheduler's business. *)
Definition _buffer_media_group (m : message) (task : Z) (r : relay) : relay :=
  let gid := str_of_group m in
  let r1 :=
    set_media_group_buffer
      (<[gid := default [] (media_group_buffer r !! gid) ++ [m]]>
         (media_group_buffer r)) r in
  let r2 :=
    match group_order r1 !! gid with
    | Some _ => r1
    | None =>
        set_group_order (<[gid := group_seq_counter r1]> (group_order r1))
          (group_seq_counter r1 + 1) r1
    end in
  set_media_group_tasks (<[gid := task]> (media_group_tasks r2)) r2.

(** ** Measures used in the statements about the senders *)

(** How many of the failures [es] use up an attempt of
    [_send_with_backoff]: all but the rate-limit signals. *)
Definition attempts_used (es : list exn) : Z :=
  Z.of_nat (length (List.filter (λ e, negb (rate_limited e)) es)).

(** How many answers of a script are rate-limit signals. *)
Definition rate_limit_answers (script : list answer) : nat :=
  length (List.filter
            (λ a, match a with Raised (RetryAfter _) => true | _ => false end)
            script).

(** The parts of albums as they arrive, each with the flush task that
    [_buffer_media_group] creates for it. *)
Definition buffer_all (parts : list (message * Z)) (r : relay) : relay :=
  foldl (λ r p, _buffer_media_group p.1 p.2 r) r parts.

(** ** Names used in the statements about the progress message *)

(** The line [_finalize_progress_message] writes for an entry and what
    [gather] holds for it. *)
Definition final_line (r : relay) (fallback_key : bool) (p : progress)
    (eg : entry * gathered) : line :=
  Status (if final_status r fallback_key (p_src_key p) eg.1 eg.2
          then Succeeded else Failed)
         (display_name eg.1).

(** ** simple_relay.py: adding channels *)

(** The attributes of the [Chat] that [get_chat] returns. *)
Record chat := {
  c_id : Z;
  c_title : option string;
  c_username : option string
}.

(** [chat.title or (('@' + chat.username) if chat.username else str(cid))] *)
Definition chat_name (c : chat) : string :=
  match c_title c with
  | Some (String a t) => String a t
  | _ =>
      match c_username c with
      | Some (String a u) => "@" +:+ String a u
      | _ => pretty (c_id c)
      end
  end.

(** The first loop of [add_channels_via_api], with its [seen] and [uniq]. *)
Fixpoint api_uniq (items : list string) (seen : gset string)
    (uniq : list (string * option string)) : list (string * option string) :=
  match items with
  | [] => uniq
  | raw :: items' =>
      match normalize_channel_token (Some raw) with
      | Some (String a t) =>
          let norm := String a t in
          let key := channel_key norm in
          if decide (key ∈ seen) then api_uniq items' seen uniq
          else api_uniq items' ({[ key ]} ∪ seen) (uniq ++ [(raw, Some norm)])
      | _ => api_uniq items' seen (uniq ++ [(raw, None)])
      end
  end.

(** What the second loop works on. *)
Record adding := {
  a_entries : list entry;
  a_keys : gset string;
  a_added : list string;
  a_skipped : list string
}.

(** The second loop; [get_chat] gives the chat the platform returns for a
    token, or [None] when the call raises. *)
Fixpoint api_add (get_chat : string -> option chat)
    (uniq : list (string * option string)) (st : adding) : adding :=
  match uniq with
  | [] => st
  | (raw, None) :: uniq' =>
      api_add get_chat uniq'
        {| a_entries := a_entries st; a_keys := a_keys st;
           a_added := a_added st; a_skipped := a_skipped st ++ [raw] |}
  | (raw, Some norm) :: uniq' =>
      match get_chat norm with
      | None =>
          api_add get_chat uniq'
            {| a_entries := a_entries st; a_keys := a_keys st;
               a_added := a_added st; a_skipped := a_skipped st ++ [norm] |}
      | Some c =>
          let cid := c_id c in
          let name := chat_name c in
          let token_key := channel_key norm in
          if decide (pretty cid ∈ a_keys st \/ token_key ∈ a_keys st) then
            api_add get_chat uniq'
              {| a_entries := a_entries st; a_keys := a_keys st;
                 a_added := a_added st; a_skipped := a_skipped st ++ [norm] |}
          else
            api_add get_chat uniq'
              {| a_entries :=
                   a_entries st
                   ++ [{| e_id := Some cid; e_token := Some norm;
                          e_name := Some name; e_username := c_username c |}];
                 a_keys := {[ token_key ]} ∪ ({[ pretty cid ]} ∪ a_keys st);
                 a_added := a_added st ++ [name];
                 a_skipped := a_skipped st |}
      end
  end.

(** [existing_keys] as [add_channels_via_api] first computes it. *)
Definition existing_keys (entries : list entry) : gset string :=
  list_to_set (map (λ e, str_of_id (e_id e)) entries)
  ∪ list_to_set (map (λ e, str_lower (str_or_empty (e_token e))) entries).

(** [add_channels_via_api] on the entries that [load_channel_entries]
    gave it; the entries of the result are saved when [a_added] is not
    empty. *)
Definition add_channels_via_api (get_chat : string -> option chat)
    (items : list string) (entries : list entry) : adding :=
  api_add get_chat (api_uniq items ∅ [])
    {| a_entries := entries; a_keys := existing_keys entries;
       a_added := []; a_skipped := [] |}.

(** ** simple_relay.py: the channels the bot was seen in *)

(** An entry of [discovered_channels.json]. *)
Record discovered := {
  d_id : Z;
  d_name : option string;
  d_username : option string
}.

(** [getattr(chat, 'title', None) or e.get('name')] *)
Definition title_or (title old : option string) : option string :=
  match title with
  | Some (String a t) => title
  | _ => old
  end.

(** The loop of [on_my_chat_member] that updates the first entry with the
    chat's id; the boolean is its [found]. *)
Fixpoint update_first (c : chat) (entries : list discovered)
    : list discovered * bool :=
  match entries with
  | [] => ([], false)
  | e :: entries' =>
      if decide (pretty (d_id e) = pretty (c_id c)) then
        ({| d_id := d_id e; d_name := title_or (c_title c) (d_name e);
            d_username := c_username c |} :: entries', true)
      else
        let '(l, found) := update_first c entries' in (e :: l, found)
  end.

(** What [on_my_chat_member] and [on_channel_post] do for a channel the
    bot is in. *)
Definition upsert_discovered (c : chat) (entries : list discovered)
    : list discovered :=
  let '(l, found) := update_first c entries in
  if found then l
  else l ++ [{| d_id := c_id c;
                d_name := title_or (c_title c) (Some (pretty (c_id c)));
                d_username := c_username c |}].

(** What [on_my_chat_member] keeps for a channel the bot has left. *)
Definition forget_discovered (c : chat) (entries : list discovered)
    : list discovered :=
  List.filter (λ e, negb (bool_decide (pretty (d_id e) = pretty (c_id c)))) entries.

(** The candidates of [cmd_joined]: the discovered channels whose id is
    not the id of an entry of the registry. *)
Definition joined_candidates (found : list discovered) (entries : list entry)
    : list discovered :=
  List.filter
    (λ d, negb (bool_decide
       (pretty (d_id d) ∈ map (λ e, str_of_id (e_id e)) entries))) found.

(** * Theorems *)

(** ** Strings *)

Module PyFacts.
Import Py.

Lemma app_cons a s r : String a s +:+ r = String a (s +:+ r).
Proof. reflexivity. Qed.

Lemma app_nil s : "" +:+ s = s.
Proof. reflexivity. Qed.

Lemma re_digit_isdigit c : re_digit c = true -> isdigit_char c = true.
Proof. destruct c as [[] [] [] [] [] [] [] []]; vm_compute; congruence. Qed.

Lemma isdigit_not_space c : isdigit_char c = true -> isspace c = false.
Proof. destruct c as [[] [] [] [] [] [] [] []]; vm_compute; congruence. Qed.

Lemma re_word_not_space c : re_word c = true -> isspace c = false.
Proof. destruct c as [[] [] [] [] [] [] [] []]; vm_compute; congruence. Qed.

Lemma all_chars_impl (p q : ascii -> bool) s :
  (forall c, p c = true -> q c = true) ->
  all_chars p s = true -> all_chars q s = true.
Proof.
  intros Hpq. induction s as [|c r IH]; simpl; [done|].
  intros [Hc Hr]%andb_prop. rewrite (Hpq _ Hc), (IH Hr). done.
Qed.

Lemma all_chars_span p s : all_chars p (span p s) = true.
Proof.
  induction s as [|c r IH]; simpl; [done|].
  destruct (p c) eqn:Hc; simpl; [|done]. by rewrite Hc, IH.
Qed.

Lemma lstrip_head s c r : lstrip s = String c r -> isspace c = false.
Proof.
  induction s as [|a s IH]; simpl; [done|].
  destruct (isspace a) eqn:Ha; [exact IH|]. by intros [= <- _].
Qed.

Lemma lstrip_cons c r : isspace c = false -> lstrip (String c r) = String c r.
Proof. intros H. simpl. by rewrite H. Qed.

Lemma rstrip_cons c r : isspace c = false -> rstrip (String c r) = String c (rstrip r).
Proof. intros H. simpl. destruct (rstrip r); by rewrite ?H. Qed.

Lemma rstrip_idem s : rstrip (rstrip s) = rstrip s.
Proof.
  induction s as [|c r IH]; simpl; [done|].
  destruct (rstrip r) as [|a r'] eqn:Hr.
  - destruct (isspace c) eqn:Hc; simpl; [done|]. by rewrite Hc.
  - change (rstrip (String c (String a r'))) with
      (match rstrip (String a r') with
       | EmptyString => if isspace c then EmptyString else String c EmptyString
       | x => String c x
       end).
    by rewrite IH.
Qed.

Lemma strip_idem s : strip (strip s) = strip s.
Proof.
  unfold strip. destruct (lstrip s) as [|c r] eqn:Hs; [done|].
  apply lstrip_head in Hs.
  rewrite (rstrip_cons _ _ Hs), (lstrip_cons _ _ Hs), <- (rstrip_cons _ _ Hs).
  apply rstrip_idem.
Qed.

Lemma rstrip_strip s : rstrip (strip s) = strip s.
Proof. apply rstrip_idem. Qed.

Lemma rstrip_clean s : all_chars (λ c, negb (isspace c)) s = true -> rstrip s = s.
Proof.
  induction s as [|c r IH]; simpl; [done|].
  intros [Hc Hr]%andb_prop. apply negb_true_iff in Hc.
  rewrite (IH Hr). destruct r; by rewrite ?Hc.
Qed.

Lemma strip_clean s : all_chars (λ c, negb (isspace c)) s = true -> strip s = s.
Proof.
  intros H. unfold strip. destruct s as [|c r]; [done|].
  pose proof H as [Hc _]%andb_prop. apply negb_true_iff in Hc.
  rewrite (lstrip_cons _ _ Hc). by apply rstrip_clean.
Qed.

Lemma startswith_at s : startswith "@" s = true -> s = String "@" (slice1 s).
Proof.
  destruct s as [|c r]; simpl; [done|].
  destruct (decide ("@"%char = c)) as [<-|]; done.
Qed.

Lemma truthy_cons c r : truthy (String c r) = true.
Proof. reflexivity. Qed.

Lemma truthy_nonempty s : truthy s = true <-> s <> "".
Proof. destruct s; simpl; split; congruence. Qed.

End PyFacts.

(** ** channel_utils.py *)

Section Normalize.
Import Py PyFacts.

Lemma match_c_link_digits s g :
  match_c_link s = Some g -> truthy g = true /\ all_chars re_digit g = true.
Proof.
  unfold match_c_link. destruct (tme_head s) as [r|]; [|done].
  destruct (after "c/" r) as [r'|]; [|done].
  pose proof (all_chars_span re_digit r') as Hall.
  destruct (span re_digit r'); [done|]. by intros [= <-].
Qed.

Lemma match_user_link_word s g :
  match_user_link s = Some g -> truthy g = true /\ all_chars re_word g = true.
Proof.
  unfold match_user_link. destruct (tme_head s) as [r|]; [|done].
  pose proof (all_chars_span re_word r) as Hall.
  destruct (span re_word r); [done|]. by intros [= <-].
Qed.

(** On a non-empty token that [strip] leaves alone, only the inner part
    of the function runs. *)
Lemma normalize_of_stripped s :
  truthy s = true -> strip s = s ->
  normalize_channel_token (Some s) = normalize_stripped s.
Proof.
  intros Ht Hs. unfold normalize_channel_token. by rewrite Hs, Ht.
Qed.

(** A minus sign followed by digits is returned as it is. *)
Lemma normalize_stripped_minus r :
  isdigit r = true -> normalize_stripped (String "-" r) = Some (String "-" r).
Proof.
  intros Hr. unfold normalize_stripped.
  change (match_c_link (String "-" r)) with (@None string).
  change (match_user_link (String "-" r)) with (@None string).
  change (startswith "@" (String "-" r)) with false.
  change (startswith "-" (String "-" r)) with true.
  change (slice1 (String "-" r)) with r. by rewrite Hr.
Qed.

Lemma minus_100_fixed g :
  truthy g = true -> all_chars isdigit_char g = true ->
  normalize_channel_token (Some ("-100" +:+ g)) = Some ("-100" +:+ g).
Proof.
  intros Hg Hall.
  change ("-100" +:+ g) with (String "-" (String "1" (String "0" (String "0" g)))).
  rewrite normalize_of_stripped.
  - apply normalize_stripped_minus. simpl. exact Hall.
  - done.
  - apply strip_clean. simpl.
    eapply all_chars_impl; [|exact Hall].
    intros c Hc. by rewrite (isdigit_not_space c Hc).
Qed.

Lemma at_fixed u :
  strip u = u ->
  normalize_channel_token (Some ("@" +:+ u)) = Some ("@" +:+ u).
Proof.
  intros Hu. change ("@" +:+ u) with (String "@" u).
  rewrite normalize_of_stripped.
  - unfold normalize_stripped.
    change (match_c_link (String "@" u)) with (@None string).
    change (match_user_link (String "@" u)) with (@None string).
    change (startswith "@" (String "@" u)) with true.
    change (slice1 (String "@" u)) with u. cbv iota. by rewrite Hu.
  - done.
  - unfold strip. rewrite lstrip_cons by done. rewrite rstrip_cons by done.
    f_equal. rewrite <- Hu. apply rstrip_strip.
Qed.

Lemma normalize_stripped_fixed s t :
  truthy s = true -> strip s = s ->
  normalize_stripped s = Some t ->
  normalize_channel_token (Some t) = Some t.
Proof.
  intros Hne Hs. unfold normalize_stripped.
  destruct (match_c_link s) as [g|] eqn:Hc.
  { intros [= <-]. apply match_c_link_digits in Hc as [Hg Hall].
    apply minus_100_fixed; [done|].
    eapply all_chars_impl; [apply re_digit_isdigit|done]. }
  destruct (match_user_link s) as [g|] eqn:Hu.
  { intros [= <-]. apply match_user_link_word in Hu as [Hg Hall].
    apply at_fixed, strip_clean.
    eapply all_chars_impl; [|exact Hall].
    intros c Hw. by rewrite (re_word_not_space c Hw). }
  destruct (startswith "@" s) eqn:Hat.
  { intros [= <-]. apply at_fixed, strip_idem. }
  destruct (startswith "-" s && isdigit (slice1 s)) eqn:Hminus.
  { intros [= <-]. rewrite normalize_of_stripped by done.
    unfold normalize_stripped. by rewrite Hc, Hu, Hat, Hminus. }
  destruct (isdigit s) eqn:Hd; [|done].
  destruct (startswith "-100" s) eqn:H100; intros [= <-].
  - rewrite normalize_of_stripped by done.
    unfold normalize_stripped. by rewrite Hc, Hu, Hat, Hminus, Hd, H100.
  - apply minus_100_fixed; [done|]. by destruct s.
Qed.

End Normalize.
Example normalize_c_link :
  normalize_channel_token (Some "https://t.me/c/1234567/89") = Some "-1001234567".
Proof. vm_compute. reflexivity. Qed.

Example normalize_user_link :
  normalize_channel_token (Some " http://t.me/some_chan/5 ") = Some "@some_chan".
Proof. vm_compute. reflexivity. Qed.

Example normalize_at :
  normalize_channel_token (Some "@  name ") = Some "@name".
Proof. vm_compute. reflexivity. Qed.

Example normalize_digits :
  normalize_channel_token (Some "42") = Some "-10042".
Proof. vm_compute. reflexivity. Qed.

Example normalize_junk :
  normalize_channel_token (Some "hello") = None.
Proof. vm_compute. reflexivity. Qed.

(** C10. [normalize_channel_token] is idempotent on what it returns: when
    it maps a token to [t], it maps [t] to [t]. *)
Theorem normalize_channel_token_idempotent (token : option string) (t : string) :
  normalize_channel_token token = Some t ->
  normalize_channel_token (Some t) = Some t.
Proof.
  destruct token as [s|]; [|done].
  unfold normalize_channel_token at 1.
  destruct (Py.truthy s); [|done]. cbn [negb].
  destruct (Py.truthy (Py.strip s)) eqn:Hne; [|done]. cbn [negb].
  apply normalize_stripped_fixed; [done|apply PyFacts.strip_idem].
Qed.

Lemma normalize_channel_token_idempotent_witness :
  normalize_channel_token (Some " https://t.me/c/1234567/89 ") = Some "-1001234567"
  /\ normalize_channel_token (Some "-1001234567") = Some "-1001234567".
Proof.
  split; [vm_compute; reflexivity|].
  apply (normalize_channel_token_idempotent (Some " https://t.me/c/1234567/89 ")).
  vm_compute; reflexivity.
Defined.

(** ** simple_relay.py: administrators *)

Example is_admin_open : is_admin [] 42 = true.
Proof. reflexivity. Qed.

Example is_admin_listed : is_admin [7; 42] 42 = true /\ is_admin [7; 42] 5 = false.
Proof. split; reflexivity. Qed.

(** C9. With an empty [ADMIN_IDS] every user id is an administrator, and
    with a non-empty one exactly the listed ids are. *)
Theorem is_admin_spec :
  (forall u : Z, is_admin [] u = true)
  /\ (forall (a : Z) (ids : list Z) (u : Z),
        is_admin (a :: ids) u = true <-> u ∈ a :: ids).
Proof.
  split; [done|].
  intros a ids u. unfold is_admin.
  rewrite (bool_decide_eq_true_2 (a :: ids <> [])) by done.
  cbn [negb orb]. apply bool_decide_eq_true.
Qed.

(** ** simple_relay.py: the senders *)

Section Senders.
Variables (func : api) (chat : Z).

Lemma after_events_nil {A} (x : list event * A) : after_events [] x = x.
Proof. by destruct x. Qed.

Lemma after_events_app {A} (a b : list event) (x : list event * A) :
  after_events (a ++ b) x = after_events a (after_events b x).
Proof. unfold after_events. simpl. by rewrite app_assoc. Qed.

Lemma calls_app a b : calls (a ++ b) = (calls a + calls b)%nat.
Proof. induction a as [|[] a IH]; simpl; by rewrite ?IH. Qed.

Lemma sleeps_app a b : sleeps (a ++ b) = sleeps a ++ sleeps b.
Proof. induction a as [|[] a IH]; simpl; by rewrite ?IH. Qed.

(** One turn of the loop on a rate-limit signal: [attempt] stays. *)
Lemma backoff_loop_rate_limited max_retries attempt w rest :
  attempt < max_retries ->
  backoff_loop func chat max_retries attempt (Raised (RetryAfter w) :: rest)
  = after_events [EvCall func chat; EvSleep (w + 1)]
      (backoff_loop func chat max_retries attempt rest).
Proof. intros H. simpl. by rewrite (proj2 (Z.ltb_lt _ _) H). Qed.

(** One turn of the loop on a time-out or network error. *)
Lemma backoff_loop_transient max_retries attempt e rest :
  attempt < max_retries -> transient e = true ->
  backoff_loop func chat max_retries attempt (Raised e :: rest)
  = after_events [EvCall func chat; EvSleep (1 * (attempt + 1))]
      (backoff_loop func chat max_retries (attempt + 1) rest).
Proof.
  intros H He. simpl. rewrite (proj2 (Z.ltb_lt _ _) H). by destruct e.
Qed.

(** One turn of the loop on any other [Exception]. *)
Lemma backoff_loop_other max_retries attempt e rest :
  attempt < max_retries ->
  is_Exception e = true -> rate_limited e = false -> transient e = false ->
  backoff_loop func chat max_retries attempt (Raised e :: rest)
  = after_events [EvCall func chat; EvSleep 1]
      (backoff_loop func chat max_retries (attempt + 1) rest).
Proof.
  intros H He Hr Ht. simpl. rewrite (proj2 (Z.ltb_lt _ _) H). by destruct e.
Qed.

(** The loop is over once [attempt] has reached [max_retries]. *)
Lemma backoff_loop_exhausted max_retries attempt script :
  max_retries <= attempt ->
  backoff_loop func chat max_retries attempt script
  = ([], Raise (RuntimeError "send failed after retries")).
Proof.
  intros H. destruct script; simpl; by rewrite (proj2 (Z.ltb_ge _ _) H).
Qed.

End Senders.

Example backoff_first_try :
  _send_with_backoff send_message 7 3 [Returned 1]
  = ([EvCall send_message 7], Ret 1).
Proof. reflexivity. Qed.

Example backoff_three_timeouts :
  _send_with_backoff send_photo 7 3 [Raised TimedOut; Raised NetworkError; Raised TimedOut]
  = ([EvCall send_photo 7; EvSleep 1; EvCall send_photo 7; EvSleep 2;
      EvCall send_photo 7; EvSleep 3],
     Raise (RuntimeError "send failed after retries")).
Proof. reflexivity. Qed.

Example backoff_cancelled :
  _send_with_backoff send_message 7 3 [Raised CancelledError; Returned 1]
  = ([EvCall send_message 7], Raise CancelledError).
Proof. reflexivity. Qed.

(** C1, as the claim has it, fails.  A wait of 5 is signalled, the sender
    sleeps 6 and retries; the retry is rate-limited again, and the sender
    does not give up: it sleeps 6 once more, calls a third time and returns
    that call's value. *)
Lemma rate_limit_retry_is_not_single :
  _send_with_backoff send_message 7 default_max_retries
    [Raised (RetryAfter 5); Raised (RetryAfter 5); Returned 1]
  = ([EvCall send_message 7; EvSleep 6; EvCall send_message 7; EvSleep 6;
      EvCall send_message 7], Ret 1).
Proof. reflexivity. Qed.

(** C1, amended.  On a rate-limit signal with wait [W] the sender sleeps
    [W + 1] and calls again with [attempt] unchanged: the signals do not use
    up the retry budget, so however many follow one another, each is
    answered by its sleep and a further call. *)
Theorem rate_limit_sleeps_and_retries (func : api) (chat max_retries attempt : Z)
    (ws : list Z) (rest : list answer) :
  attempt < max_retries ->
  backoff_loop func chat max_retries attempt
    (map (λ w, Raised (RetryAfter w)) ws ++ rest)
  = after_events (flat_map (λ w, [EvCall func chat; EvSleep (w + 1)]) ws)
      (backoff_loop func chat max_retries attempt rest).
Proof.
  intros H. induction ws as [|w ws IH].
  - by rewrite after_events_nil.
  - cbn [map flat_map app]. rewrite backoff_loop_rate_limited by done.
    rewrite IH. by rewrite <- after_events_app.
Qed.

Lemma rate_limit_sleeps_and_retries_witness :
  _send_with_backoff send_message 7 default_max_retries
    (map (λ w, Raised (RetryAfter w)) [5; 2; 9] ++ [Returned 1])
  = after_events
      (flat_map (λ w, [EvCall send_message 7; EvSleep (w + 1)]) [5; 2; 9])
      (_send_with_backoff send_message 7 default_max_retries [Returned 1]).
Proof.
  apply (rate_limit_sleeps_and_retries send_message 7 3 0 [5; 2; 9] [Returned 1]).
  lia.
Defined.

(** C2, as the claim has it, fails.  The first call meets a failure that is
    neither a rate-limit signal nor a network error; the sender sleeps 1,
    calls again and returns the second call's value. *)
Lemma other_failure_is_retried :
  _send_with_backoff send_message 7 default_max_retries
    [Raised (OtherError "BadRequest"); Returned 1]
  = ([EvCall send_message 7; EvSleep 1; EvCall send_message 7], Ret 1).
Proof. reflexivity. Qed.

(** C2, amended.  An [Exception] that is neither a rate-limit signal nor a
    network error is retried too: it uses up one attempt, the sender sleeps
    1 and goes round the loop again; when that was the last attempt the
    sender raises its own [RuntimeError], not the failure it met. *)
Theorem other_failure_uses_an_attempt (func : api) (chat max_retries attempt : Z)
    (e : exn) (rest : list answer) :
  attempt < max_retries ->
  is_Exception e = true -> rate_limited e = false -> transient e = false ->
  backoff_loop func chat max_retries attempt (Raised e :: rest)
  = after_events [EvCall func chat; EvSleep 1]
      (backoff_loop func chat max_retries (attempt + 1) rest)
  /\ (attempt + 1 = max_retries ->
      backoff_loop func chat max_retries attempt (Raised e :: rest)
      = ([EvCall func chat; EvSleep 1],
         Raise (RuntimeError "send failed after retries"))).
Proof.
  intros H He Hr Ht.
  rewrite backoff_loop_other by done. split; [done|].
  intros Hlast. rewrite backoff_loop_exhausted by lia. done.
Qed.

Lemma other_failure_uses_an_attempt_witness :
  backoff_loop send_message 7 3 2 [Raised (OtherError "Forbidden"); Returned 1]
  = ([EvCall send_message 7; EvSleep 1],
     Raise (RuntimeError "send failed after retries")).
Proof.
  apply (other_failure_uses_an_attempt send_message 7 3 2
           (OtherError "Forbidden") [Returned 1]); [lia|done..].
Defined.

Example album_send_rate_limited_twice :
  _send_media_group_no_retry 7 [Raised (RetryAfter 5); Raised (RetryAfter 5); Returned 1]
  = ([EvCall send_media_group 7; EvSleep 6; EvCall send_media_group 7],
     Raise (RetryAfter 5)).
Proof. reflexivity. Qed.

Example album_send_timeout :
  _send_media_group_no_retry 7 [Raised TimedOut; Returned 1]
  = ([EvCall send_media_group 7], Raise TimedOut).
Proof. reflexivity. Qed.

(** C7. An album send calls the platform at most twice; it calls a second
    time only when the first call was rate-limited, after sleeping the wait
    plus 1; a first failure of any other class is raised at once, after
    that one call. *)
Theorem album_send_retries_once (chat : Z) (script : list answer) :
  let run := _send_media_group_no_retry chat script in
  (calls run.1 <= 2)%nat
  /\ (calls run.1 = 2%nat ->
      exists w rest,
        script = Raised (RetryAfter w) :: rest
        /\ run.1 = [EvCall send_media_group chat; EvSleep (w + 1);
                    EvCall send_media_group chat])
  /\ (forall e rest,
        script = Raised e :: rest -> rate_limited e = false ->
        run = ([EvCall send_media_group chat], Raise e)).
Proof.
  cbv zeta. split; [|split].
  - destruct script as [|[v|[]] [|[]]]; simpl; lia.
  - destruct script as [|[v|[]] rest]; simpl; try discriminate.
    intros _. eexists _, _. split; [done|]. by destruct rest as [|[]].
  - intros e rest -> He. by destruct e.
Qed.

Lemma album_send_retries_once_witness :
  _send_media_group_no_retry 7 [Raised (OtherError "BadRequest"); Returned 1]
  = ([EvCall send_media_group 7], Raise (OtherError "BadRequest")).
Proof.
  apply (proj2 (proj2 (album_send_retries_once 7
           [Raised (OtherError "BadRequest"); Returned 1]))
           (OtherError "BadRequest") [Returned 1]); reflexivity.
Defined.

(** ** simple_relay.py: the delivery cache *)

Section Cache.
Implicit Types (r : relay) (key : Z * string) (now : Z).

Lemma lookup_prune_cache r now key t0 :
  sent_cache (_prune_cache now r) !! key = Some t0
  <-> sent_cache r !! key = Some t0 /\ now - t0 <= sent_ttl.
Proof.
  unfold _prune_cache. cbn [sent_cache set_sent_cache].
  rewrite map_lookup_filter_Some. cbn [snd]. split; intros [? ?]; split; (done || lia).
Qed.

Lemma is_Some_lookup_prune_cache r now key :
  is_Some (sent_cache (_prune_cache now r) !! key)
  <-> exists t0, sent_cache r !! key = Some t0 /\ now - t0 <= sent_ttl.
Proof.
  unfold is_Some. by setoid_rewrite lookup_prune_cache.
Qed.

Lemma album_skips_iff r now cid k :
  album_skips now r cid k = true
  <-> exists t0, sent_cache r !! (cid, k) = Some t0 /\ now - t0 <= sent_ttl.
Proof.
  unfold album_skips. rewrite bool_decide_eq_true.
  apply is_Some_lookup_prune_cache.
Qed.

Lemma single_skips_iff r now cid k :
  single_skips now r cid k = true
  <-> Py.truthy k = true
      /\ exists t0, sent_cache r !! (cid, k) = Some t0 /\ now - t0 <= sent_ttl.
Proof.
  unfold single_skips. rewrite andb_true_iff, bool_decide_eq_true.
  by rewrite is_Some_lookup_prune_cache.
Qed.

Lemma lookup_record_sent r key now :
  sent_cache (record_sent key now r) !! key = Some now.
Proof. unfold record_sent. cbn. apply lookup_insert_eq. Qed.

Lemma lookup_record_sent_ne r key key' now :
  key <> key' ->
  sent_cache (record_sent key now r) !! key' = sent_cache r !! key'.
Proof. intros H. unfold record_sent. cbn. by apply lookup_insert_ne. Qed.

(** A lookup after a record sees the entry exactly while it is fresh. *)
Lemma album_skips_record r cid k t t' :
  album_skips t' (record_sent (cid, k) t r) cid k = bool_decide (t' - t <= sent_ttl).
Proof.
  apply bool_decide_ext. rewrite is_Some_lookup_prune_cache.
  rewrite lookup_record_sent. split.
  - by intros (t0 & [= <-] & ?).
  - intros ?. by exists t.
Qed.

Lemma single_skips_record r cid k t t' :
  Py.truthy k = true ->
  single_skips t' (record_sent (cid, k) t r) cid k = bool_decide (t' - t <= sent_ttl).
Proof.
  intros Hk. unfold single_skips. rewrite Hk. apply album_skips_record.
Qed.

End Cache.

(** An entry recorded at [t] is still there at [t'], at most [sent_ttl]
    later, whatever prunes by a clock that does not run backwards and
    records under other keys came in between. *)
Lemma fresh_entry_survives (ops : list cache_op) (r : relay)
    (key : Z * string) (t t' : Z) :
  Forall (λ op, match op with
                | Prune now => now <= t'
                | Record key' _ => key' <> key
                end) ops ->
  sent_cache r !! key = Some t -> t' - t <= sent_ttl ->
  sent_cache (foldl cache_step r ops) !! key = Some t.
Proof.
  intros Hops. revert r. induction Hops as [|op ops Hop _ IH]; intros r Hr Ht; [done|].
  cbn [foldl]. apply IH; [|done]. destruct op as [now|key' now]; unfold cache_step.
  - apply lookup_prune_cache. split; [done|lia].
  - by rewrite lookup_record_sent_ne.
Qed.

(** Prunes and records under other keys never bring an entry in. *)
Lemma lookup_after_ops (ops : list cache_op) (r : relay) (key : Z * string) (x : Z) :
  Forall (λ op, match op with
                | Prune _ => True
                | Record key' _ => key' <> key
                end) ops ->
  sent_cache (foldl cache_step r ops) !! key = Some x ->
  sent_cache r !! key = Some x.
Proof.
  intros Hops. revert r. induction Hops as [|op ops Hop _ IH]; intros r; [done|].
  cbn [foldl]. intros H%IH. destruct op as [now|key' now]; unfold cache_step in H.
  - by apply lookup_prune_cache in H as [? _].
  - by rewrite lookup_record_sent_ne in H.
Qed.

(** A lookup at [t'] after a record at [t], with such operations in
    between, finds the entry exactly when it is at most [sent_ttl] old. *)
Lemma album_skips_after_ops (ops : list cache_op) (r : relay) (cid : Z)
    (k : string) (t t' : Z) :
  Forall (λ op, match op with
                | Prune now => now <= t'
                | Record key' _ => key' <> (cid, k)
                end) ops ->
  album_skips t' (foldl cache_step (record_sent (cid, k) t r) ops) cid k
  = bool_decide (t' - t <= sent_ttl).
Proof.
  intros Hops. apply bool_decide_ext. rewrite is_Some_lookup_prune_cache. split.
  - intros (t0 & Ht0 & Hfresh). apply lookup_after_ops in Ht0.
    + rewrite lookup_record_sent in Ht0. by injection Ht0 as ->.
    + eapply Forall_impl; [exact Hops|]. by intros [].
  - intros Hfresh. exists t. split; [|done].
    apply (fresh_entry_survives _ _ _ _ t'); [done|apply lookup_record_sent|done].
Qed.

Lemma single_skips_after_ops (ops : list cache_op) (r : relay) (cid : Z)
    (k : string) (t t' : Z) :
  Py.truthy k = true ->
  Forall (λ op, match op with
                | Prune now => now <= t'
                | Record key' _ => key' <> (cid, k)
                end) ops ->
  single_skips t' (foldl cache_step (record_sent (cid, k) t r) ops) cid k
  = bool_decide (t' - t <= sent_ttl).
Proof.
  intros Hk Hops. unfold single_skips. rewrite Hk.
  by apply album_skips_after_ops.
Qed.

Section Fingerprints.
Variable hash : string -> Z.

Lemma content_key_truthy m : Py.truthy (content_key hash m) = true.
Proof. unfold content_key. by case_match. Qed.

(** The fingerprint of a message is never the empty string. *)
Lemma _src_key_truthy m : Py.truthy (_src_key hash (Some m)) = true.
Proof.
  unfold _src_key. destruct (forward_origin m) as [[c mid]|]; [done|].
  apply content_key_truthy.
Qed.

End Fingerprints.

Section Dispatch.
Implicit Types (r : relay) (m : message) (e : entry) (env : send_env).

Lemma _send_one_accepted m cid f v rest :
  send_method m = Some f ->
  _send_one m cid (Returned v :: rest) = ([EvCall f cid], Ret true).
Proof. intros H. unfold _send_one. by rewrite H. Qed.

(** A destination that passes the cache test is not sent to. *)
Lemma send_to_one_skipped r env m k e cid :
  entry_cid e env = Ret cid ->
  single_skips (now_prune env) r cid k = true ->
  send_to_one r env m k e
  = {| s_relay := _prune_cache (now_prune env) r; s_trace := [];
       s_result := Ret (true, Some (cid, k)) |}.
Proof. intros Hc Hs. unfold send_to_one. by rewrite Hc, Hs. Qed.

Lemma send_album_to_one_skipped r env msgs k e cid :
  entry_cid e env = Ret cid ->
  album_skips (now_prune env) r cid k = true ->
  send_album_to_one r env msgs k e
  = {| s_relay := _prune_cache (now_prune env) r; s_trace := [];
       s_result := Ret (true, Some (cid, k)) |}.
Proof. intros Hc Hs. unfold send_album_to_one. by rewrite Hc, Hs. Qed.

(** A destination that fails the cache test and whose first call the
    platform accepts is sent to once, and recorded. *)
Lemma send_to_one_accepted r env m k e cid f v rest :
  entry_cid e env = Ret cid ->
  single_skips (now_prune env) r cid k = false ->
  send_method m = Some f ->
  script env = Returned v :: rest ->
  send_to_one r env m k e
  = {| s_relay := record_sent (cid, k) (now_record env)
                    (_prune_cache (now_prune env) r);
       s_trace := [EvCall f cid];
       s_result := Ret (true, Some (cid, k)) |}.
Proof.
  intros Hc Hs Hf Hscript. unfold send_to_one.
  by rewrite Hc, Hs, Hscript, (_send_one_accepted _ _ f).
Qed.

End Dispatch.

Example album_delivery_recorded :
  s_result (send_album_to_one __init__ (env_at 100 [Returned 1] 101)
              [album_part 11 5 "g1" "f1"; album_part 12 5 "g1" "f2"]
              "group::g1" (channel (-1007) "news"))
  = Ret (true, Some (-1007, "group::g1")).
Proof. vm_compute. reflexivity. Qed.

(** C3, as the claim has it, fails for albums.  The delivery of an album to
    channel -1007 was recorded at time 0.  At time 10000, more than 7200
    seconds later, the entry is still honoured: the album is reported as
    delivered to that channel and nothing is sent. *)
Lemma album_entry_honoured_past_7200 :
  sent_cache (record_sent (-1007, "group::g1") 0 __init__)
    !! (-1007, "group::g1") = Some 0
  /\ 10000 - 0 > 7200
  /\ album_skips 10000 (record_sent (-1007, "group::g1") 0 __init__)
       (-1007) "group::g1" = true
  /\ s_trace (send_album_to_one (record_sent (-1007, "group::g1") 0 __init__)
                (env_at 10000 [Returned 1] 10001)
                [album_part 11 5 "g1" "f1"; album_part 12 5 "g1" "f2"]
                "group::g1" (channel (-1007) "news")) = []
  /\ s_result (send_album_to_one (record_sent (-1007, "group::g1") 0 __init__)
                 (env_at 10000 [Returned 1] 10001)
                 [album_part 11 5 "g1" "f1"; album_part 12 5 "g1" "f2"]
                 "group::g1" (channel (-1007) "news"))
     = Ret (true, Some (-1007, "group::g1")).
Proof. repeat split; vm_compute; reflexivity. Qed.

(** C3, amended.  A destination counts as delivered, and is not sent to,
    exactly when the cache holds an entry for it and the fingerprint that is
    at most 21600 seconds old.  That one bound serves the entries of single
    messages and of albums alike; the bound of 7200 seconds is that of the
    marks in [processed_groups]. *)
Theorem delivered_iff_fresh_entry (hash : string -> Z) (r : relay) (now cid : Z)
    (m : message) (group_src_key : string) :
  (single_skips now r cid (_src_key hash (Some m)) = true
   <-> exists t0, sent_cache r !! (cid, _src_key hash (Some m)) = Some t0
                  /\ now - t0 <= 21600)
  /\ (album_skips now r cid group_src_key = true
      <-> exists t0, sent_cache r !! (cid, group_src_key) = Some t0
                     /\ now - t0 <= 21600)
  /\ (forall env e,
        entry_cid e env = Ret cid -> now_prune env = now ->
        single_skips now r cid (_src_key hash (Some m)) = true ->
        s_trace (send_to_one r env m (_src_key hash (Some m)) e) = [])
  /\ (forall env e msgs,
        entry_cid e env = Ret cid -> now_prune env = now ->
        album_skips now r cid group_src_key = true ->
        s_trace (send_album_to_one r env msgs group_src_key e) = []).
Proof.
  change 21600 with sent_ttl. split; [|split; [|split]].
  - rewrite single_skips_iff, _src_key_truthy. split; [by intros [_ ?]|done].
  - apply album_skips_iff.
  - intros env e Hc <- Hs. by rewrite (send_to_one_skipped _ _ _ _ _ cid).
  - intros env e msgs Hc <- Hs. by rewrite (send_album_to_one_skipped _ _ _ _ _ cid).
Qed.

Lemma delivered_iff_fresh_entry_witness :
  s_trace (send_to_one (record_sent (-1007, "self:5:11") 0 __init__)
             (env_at 21600 [Returned 1] 21601)
             (text_message 11 5 "") "self:5:11" (channel (-1007) "news")) = [].
Proof.
  apply (proj1 (proj2 (proj2 (delivered_iff_fresh_entry (λ _, 0)
           (record_sent (-1007, "self:5:11") 0 __init__) 21600 (-1007)
           (text_message 11 5 "") "group::g1")))
           (env_at 21600 [Returned 1] 21601) (channel (-1007) "news"));
    vm_compute; reflexivity.
Defined.

Example second_dispatch_after_ttl :
  s_trace (send_to_one (record_sent (-1007, "self:5:11") 0 __init__)
             (env_at 21601 [Returned 1] 21602)
             (text_message 11 5 "hello") "self:5:11" (channel (-1007) "news"))
  = [EvCall send_message (-1007)].
Proof. vm_compute. reflexivity. Qed.

(** C5. A unit is dispatched to a destination that the cache does not yet
    cover, and the platform accepts the send, so that the delivery is
    recorded at [now_record env1].  Other lookups, by a clock that does not
    run backwards, and records under other keys may follow.  A lookup for
    the same destination and fingerprint at [now_prune env2] then finds the
    destination delivered exactly when at most the TTL has passed since the
    record.  And when the same unit is dispatched to the same destination
    again within the TTL, both dispatches report success and the platform
    was called once in all. *)
Theorem record_then_skip_until_ttl (hash : string -> Z) (r : relay)
    (m : message) (e : entry) (cid : Z) (env1 env2 : send_env)
    (f : api) (v : Z) (rest : list answer) (ops : list cache_op) :
  entry_cid e env1 = Ret cid -> entry_cid e env2 = Ret cid ->
  send_method m = Some f ->
  single_skips (now_prune env1) r cid (_src_key hash (Some m)) = false ->
  script env1 = Returned v :: rest ->
  Forall (λ op, match op with
                | Prune now => now <= now_prune env2
                | Record key' _ => key' <> (cid, _src_key hash (Some m))
                end) ops ->
  single_skips (now_prune env2)
    (foldl cache_step
       (s_relay (send_to_one r env1 m (_src_key hash (Some m)) e)) ops)
    cid (_src_key hash (Some m))
  = bool_decide (now_prune env2 - now_record env1 <= sent_ttl)
  /\ (now_prune env2 - now_record env1 <= sent_ttl ->
      s_result (send_to_one r env1 m (_src_key hash (Some m)) e)
      = Ret (true, Some (cid, _src_key hash (Some m)))
      /\ s_result (send_to_one
                     (foldl cache_step
                        (s_relay (send_to_one r env1 m (_src_key hash (Some m)) e))
                        ops)
                     env2 m (_src_key hash (Some m)) e)
         = Ret (true, Some (cid, _src_key hash (Some m)))
      /\ calls (s_trace (send_to_one r env1 m (_src_key hash (Some m)) e)
                ++ s_trace (send_to_one
                     (foldl cache_step
                        (s_relay (send_to_one r env1 m (_src_key hash (Some m)) e))
                        ops)
                     env2 m (_src_key hash (Some m)) e)) = 1%nat).
Proof.
  intros Hc1 Hc2 Hf Hnew Hscript Hops.
  rewrite (send_to_one_accepted _ _ _ _ _ cid f v rest) by done.
  cbn [s_relay s_result s_trace].
  pose proof (_src_key_truthy hash m) as Hk.
  split; [by apply single_skips_after_ops|].
  intros Hin.
  rewrite (send_to_one_skipped _ _ _ _ _ cid); [done|done|].
  rewrite single_skips_after_ops by done. by apply bool_decide_eq_true_2.
Qed.

Lemma record_then_skip_until_ttl_witness :
  calls (s_trace (send_to_one __init__ (env_at 100 [Returned 1] 101)
                    (text_message 11 5 "hello")
                    (_src_key (λ _, 77) (Some (text_message 11 5 "hello")))
                    (channel (-1007) "news"))
         ++ s_trace (send_to_one
                       (foldl cache_step
                          (s_relay (send_to_one __init__ (env_at 100 [Returned 1] 101)
                             (text_message 11 5 "hello")
                             (_src_key (λ _, 77) (Some (text_message 11 5 "hello")))
                             (channel (-1007) "news")))
                          [Prune 5000; Record (-1008, "hash:77") 5001; Prune 21000])
                       (env_at 21701 [Returned 2] 21702)
                       (text_message 11 5 "hello")
                       (_src_key (λ _, 77) (Some (text_message 11 5 "hello")))
                       (channel (-1007) "news"))) = 1%nat.
Proof.
  apply (record_then_skip_until_ttl (λ _, 77) __init__
           (text_message 11 5 "hello") (channel (-1007) "news") (-1007)
           (env_at 100 [Returned 1] 101) (env_at 21701 [Returned 2] 21702)
           send_message 1 []
           [Prune 5000; Record (-1008, "hash:77") 5001; Prune 21000]).
  - reflexivity.
  - reflexivity.
  - reflexivity.
  - reflexivity.
  - reflexivity.
  - repeat constructor; (cbn; lia) || discriminate.
  - vm_compute. discriminate.
Defined.

(** ** simple_relay.py: fingerprints *)

Section Rendering.
Import Py PyFacts.

(** The characters of a rendered integer. *)
Local Abbreviation plain := (λ c : ascii, negb (bool_decide (c = ":"%char))).

Lemma pretty_N_char_plain x : plain (pretty_N_char x) = true.
Proof. unfold pretty_N_char. by repeat case_match. Qed.

Lemma pretty_N_go_plain x s :
  all_chars plain s = true -> all_chars plain (pretty_N_go x s) = true.
Proof.
  revert s. induction (N.lt_wf_0 x) as [x _ IH]; intros s Hs.
  destruct (decide (x = 0%N)) as [->|Hx]; [by rewrite pretty_N_go_0|].
  rewrite pretty_N_go_step by lia. apply IH.
  - apply N.div_lt; lia.
  - cbn [all_chars]. by rewrite pretty_N_char_plain.
Qed.

Lemma pretty_N_plain (x : N) : all_chars plain (pretty x) = true.
Proof.
  unfold pretty, pretty_N. case_decide; [done|]. by apply pretty_N_go_plain.
Qed.

Lemma pretty_Z_plain (z : Z) : all_chars plain (pretty z) = true.
Proof.
  destruct z as [|p|p]; unfold pretty, pretty_Z; [done| |].
  - apply pretty_N_plain.
  - rewrite app_cons, app_nil. cbn [all_chars]. apply pretty_N_plain.
Qed.

(** A text is cut at its first colon in one way only. *)
Lemma colon_split a a' b b' :
  all_chars plain a = true -> all_chars plain a' = true ->
  a +:+ String ":" b = a' +:+ String ":" b' -> a = a' /\ b = b'.
Proof.
  revert a'. induction a as [|c a IH]; intros [|c' a']; rewrite ?app_cons, ?app_nil.
  - by intros _ _ [= ->].
  - intros _ Ha' [= <- _]. done.
  - intros Ha _ [= -> _]. done.
  - cbn [all_chars]. intros [_ Ha]%andb_prop [_ Ha']%andb_prop [= -> H].
    destruct (IH _ Ha Ha' H) as [-> ->]. done.
Qed.

Lemma two_ids_inj (c mid c' mid' : Z) :
  pretty c +:+ ":" +:+ pretty mid = pretty c' +:+ ":" +:+ pretty mid' ->
  c = c' /\ mid = mid'.
Proof.
  rewrite !app_cons, !app_nil.
  intros [Hc Hm]%colon_split; [|apply pretty_Z_plain..].
  split; by apply (inj pretty).
Qed.

End Rendering.

Section Uniqueness.
Import Py PyFacts.
Variable hash : string -> Z.

Lemma content_key_eq m1 m2 :
  content_key hash m1 = content_key hash m2
  <-> match truthy (stripped_text m1), truthy (stripped_text m2) with
      | true, true =>
          Z.land (hash (stripped_text m1)) 0xFFFFFFFF
          = Z.land (hash (stripped_text m2)) 0xFFFFFFFF
      | false, false => chat_id m1 = chat_id m2 /\ message_id m1 = message_id m2
      | _, _ => False
      end.
Proof.
  unfold content_key.
  destruct (truthy (stripped_text m1)), (truthy (stripped_text m2));
    rewrite ?app_cons, ?app_nil; split; try done.
  - intros [= H]. by apply (inj pretty) in H.
  - by intros ->.
  - intros [= H]. by apply two_ids_inj.
  - by intros [-> ->].
Qed.

Lemma src_vs_content (c mid : Z) m :
  "src:" +:+ pretty c +:+ ":" +:+ pretty mid <> content_key hash m.
Proof.
  unfold content_key. case_match; rewrite ?app_cons, ?app_nil; done.
Qed.

Lemma _src_key_eq m1 m2 :
  _src_key hash (Some m1) = _src_key hash (Some m2) <-> same_key_data hash m1 m2.
Proof.
  unfold _src_key, same_key_data.
  destruct (forward_origin m1) as [[c1 mid1]|], (forward_origin m2) as [[c2 mid2]|].
  - rewrite !app_cons, !app_nil. split.
    + intros [= H]. rewrite <- (app_nil (pretty mid1)), <- (app_nil (pretty mid2)) in H.
      rewrite <- !app_cons in H. apply two_ids_inj in H as [-> ->]. done.
    + by intros [= -> ->].
  - split; [|done]. intros H. by apply src_vs_content in H.
  - split; [|done]. intros H. symmetry in H. by apply src_vs_content in H.
  - apply content_key_eq.
Qed.

End Uniqueness.

(** C4, as the claim has it, fails.  Two different messages, neither of
    them a forward, carry the same text; whatever the hash function, they
    get one fingerprint. *)
Lemma same_text_same_fingerprint :
  text_message 11 5 "hello" <> text_message 12 5 "hello"
  /\ forward_origin (text_message 11 5 "hello") = None
  /\ forward_origin (text_message 12 5 "hello") = None
  /\ forall hash : string -> Z,
       _src_key hash (Some (text_message 11 5 "hello"))
       = _src_key hash (Some (text_message 12 5 "hello")).
Proof. repeat split. discriminate. Qed.

Example forwards_of_one_source :
  _src_key (λ _, 0) (Some (forwarded_message 11 5 (-1009) 40 "a"))
  = _src_key (λ _, 0) (Some (forwarded_message 12 5 (-1009) 40 "b")).
Proof. vm_compute. reflexivity. Qed.

Example fingerprint_of_forward :
  _src_key (λ _, 0) (Some (forwarded_message 11 5 (-1009) 40 "a")) = "src:-1009:40".
Proof. vm_compute. reflexivity. Qed.

(** C4, amended.  Two units get one fingerprint exactly when they take the
    same branch of [_src_key] and agree on what it reads: two forwards, on
    the original chat and message id; two units with text that are not
    forwards, on the low 32 bits of the hash of the stripped text, as they
    do whenever their texts are equal; two units without text that are not
    forwards, on their own chat and message id. *)
Theorem fingerprints_equal_iff (hash : string -> Z) (m1 m2 : message) :
  _src_key hash (Some m1) = _src_key hash (Some m2) <-> same_key_data hash m1 m2.
Proof. apply _src_key_eq. Qed.

(** ** simple_relay.py: flushing an album *)

Section Flush.
Implicit Types (t : flush_task) (r : relay) (ev : flush_event).

(** What a task itself has added to the counter. *)
Local Abbreviation own t :=
  (match f_pc t with
   | Finished => if entered_sequence t then 1 else 0
   | _ => 0
   end).

(** [entered_sequence] is false up to the gate and true in the dispatch. *)
Local Abbreviation inv t :=
  (match f_pc t with
   | AtDebounce | AtOrderWait => entered_sequence t = false
   | AtDispatch => entered_sequence t = true
   | Finished => True
   end).

Lemma flush_finally_spec t r :
  f_pc (flush_finally t r).1 = Finished
  /\ entered_sequence (flush_finally t r).1 = entered_sequence t
  /\ group_next_seq (flush_finally t r).2
     = group_next_seq r + (if entered_sequence t then 1 else 0).
Proof.
  unfold flush_finally. cbn. destruct (entered_sequence t); cbn; split_and!; (done || lia).
Qed.

Lemma order_gate_spec t r :
  group_next_seq (order_gate t r).2 = group_next_seq r
  /\ ((f_pc (order_gate t r).1 = AtOrderWait
       /\ entered_sequence (order_gate t r).1 = entered_sequence t)
      \/ (f_pc (order_gate t r).1 = AtDispatch
          /\ entered_sequence (order_gate t r).1 = true
          /\ my_seq (order_gate t r).1 = group_next_seq r)).
Proof.
  unfold order_gate. case_bool_decide as H; cbn; [by auto|].
  split; [done|]. right. split_and!; [done..|].
  destruct (decide (my_seq t = group_next_seq r)); done.
Qed.

Lemma after_debounce_spec now1 now2 t r :
  entered_sequence t = false ->
  inv (after_debounce now1 now2 t r).1
  /\ f_pc (after_debounce now1 now2 t r).1 <> AtDebounce
  /\ group_next_seq (after_debounce now1 now2 t r).2
     - own (after_debounce now1 now2 t r).1 = group_next_seq r.
Proof.
  intros Ht. unfold after_debounce.
  destruct (default [] (media_group_buffer r !! f_gid t)) as [|m0 ms].
  { destruct (flush_finally_spec t r) as (-> & -> & ->). rewrite Ht.
    split_and!; (done || lia). }
  cbv zeta. case_bool_decide.
  { match goal with |- context [flush_finally t ?x] =>
      destruct (flush_finally_spec t x) as (-> & -> & ->) end.
    rewrite Ht. cbn. split_and!; (done || lia). }
  match goal with |- context [order_gate ?x ?y] =>
    destruct (order_gate_spec x y) as (-> & [(-> & ->)|(-> & -> & _)]) end;
    cbn; split_and!; (done || lia).
Qed.

Lemma flush_step_spec ev t r :
  inv t ->
  inv (flush_step ev (t, r)).1
  /\ group_next_seq (flush_step ev (t, r)).2 - own (flush_step ev (t, r)).1
     = group_next_seq r - own t
       + match ev with OthersAdvanced n => Z.of_nat n | _ => 0 end.
Proof.
  intros Hinv. unfold flush_step.
  destruct ev as [now1 now2|e|raised eff|n], (f_pc t) eqn:Hpc;
    cbn [fst snd]; rewrite ?Hpc; try (split; [done|lia]);
    try (cbn; rewrite Hpc; split; [done|lia]).
  - destruct (after_debounce_spec now1 now2 t r Hinv) as (? & ? & ?).
    split; [done|lia].
  - destruct (order_gate_spec t r) as (-> & [(-> & ->)|(-> & -> & _)]);
      split; (done || lia).
  - destruct (flush_finally_spec t r) as (-> & -> & ->). rewrite Hinv.
    split; (done || lia).
  - destruct (flush_finally_spec t r) as (-> & -> & ->). rewrite Hinv.
    split; (done || lia).
  - destruct (flush_finally_spec t r) as (-> & -> & ->). rewrite Hinv.
    split; (done || lia).
  - destruct (flush_finally_spec t (dispatched eff r)) as (-> & -> & ->).
    rewrite Hinv. cbn. split; (done || lia).
  - split; [done|cbn; lia].
  - split; [done|cbn; lia].
  - split; [done|cbn; lia].
  - split; [done|cbn; destruct (entered_sequence t); lia].
Qed.

Lemma run_flush_snoc evs ev s :
  run_flush (evs ++ [ev]) s = flush_step ev (run_flush evs s).
Proof. unfold run_flush. by rewrite foldl_app. Qed.

Lemma others_total_snoc evs ev :
  others_total (evs ++ [ev])
  = others_total evs + match ev with OthersAdvanced n => Z.of_nat n | _ => 0 end.
Proof.
  unfold others_total. induction evs as [|x evs IH]; cbn [app foldr].
  - destruct ev; lia.
  - rewrite IH. destruct x; lia.
Qed.

Lemma run_flush_spec evs gid r :
  inv (run_flush evs (flush_start gid, r)).1
  /\ group_next_seq (run_flush evs (flush_start gid, r)).2
     - own (run_flush evs (flush_start gid, r)).1
     = group_next_seq r + others_total evs.
Proof.
  induction evs as [|ev evs IH] using rev_ind.
  - cbn. split; [done|lia].
  - rewrite run_flush_snoc, others_total_snoc.
    destruct IH as [Hinv Hacc].
    destruct (run_flush evs (flush_start gid, r)) as [t' r'].
    destruct (flush_step_spec ev t' r' Hinv) as [Hinv' Hstep].
    split; [done|]. cbn [fst snd] in *. lia.
Qed.

(** The flag is raised only by a test of the gate that found the task's
    number equal to the counter. *)
Lemma entered_sequence_set ev t r :
  inv t -> entered_sequence t = false ->
  entered_sequence (flush_step ev (t, r)).1 = true ->
  f_pc (flush_step ev (t, r)).1 = AtDispatch
  /\ my_seq (flush_step ev (t, r)).1 = group_next_seq (flush_step ev (t, r)).2.
Proof.
  intros Hinv Ht. unfold flush_step.
  destruct ev as [now1 now2|e|raised eff|n], (f_pc t) eqn:Hpc;
    cbn [fst snd]; try congruence;
    try (destruct (flush_finally_spec t r) as (_ & -> & _); congruence).
  - unfold after_debounce.
    destruct (default [] (media_group_buffer r !! f_gid t)) as [|m0 ms].
    { destruct (flush_finally_spec t r) as (_ & -> & _). congruence. }
    cbv zeta. case_bool_decide.
    { match goal with |- context [flush_finally t ?x] =>
        destruct (flush_finally_spec t x) as (_ & -> & _) end. congruence. }
    match goal with |- context [order_gate ?x ?y] =>
      destruct (order_gate_spec x y) as (-> & [(_ & ->)|(-> & _ & ->)]) end;
      cbn; [congruence|done].
  - destruct (order_gate_spec t r) as (-> & [(_ & ->)|(-> & _ & ->)]);
      [congruence|done].
Qed.

End Flush.

Example flush_in_turn :
  group_next_seq
    (run_flush [Resume 10 10; DispatchEnded None no_effect]
       (flush_start "g1", relay_with_album 0)).2 = 1.
Proof. vm_compute. reflexivity. Qed.

Example flush_out_of_turn_waits :
  f_pc (run_flush [Resume 10 10; Resume 11 11; Resume 12 12]
          (flush_start "g1", relay_with_album 3)).1 = AtOrderWait.
Proof. vm_compute. reflexivity. Qed.

Example flush_cancelled_while_waiting :
  group_next_seq
    (run_flush [Resume 10 10; Resume 11 11; Threw CancelledError]
       (flush_start "g1", relay_with_album 3)).2 = 3.
Proof. vm_compute. reflexivity. Qed.

Example flush_sorts_parts :
  f_msgs (run_flush [Resume 10 10] (flush_start "g1", relay_with_album 0)).1
  = [album_part 11 5 "g1" "f1"; album_part 12 5 "g1" "f2"].
Proof. vm_compute. reflexivity. Qed.

(** C6. Over a whole flush, the counter ends at its first value, plus what
    the other flushes added, plus one if this flush has run its [finally]
    with [entered_sequence] set and nothing otherwise.  A flush that is in
    its dispatch has [entered_sequence] set, and the end of its dispatch,
    whether it returns or raises, finishes it and adds exactly one.  The
    flag is set only by a test that finds the flush's number equal to the
    counter. *)
Theorem flush_advances_counter_once (evs : list flush_event) (gid : string)
    (r : relay) :
  group_next_seq (run_flush evs (flush_start gid, r)).2
  = group_next_seq r + others_total evs
    + match f_pc (run_flush evs (flush_start gid, r)).1 with
      | Finished =>
          if entered_sequence (run_flush evs (flush_start gid, r)).1 then 1 else 0
      | _ => 0
      end
  /\ (f_pc (run_flush evs (flush_start gid, r)).1 = AtDispatch ->
      entered_sequence (run_flush evs (flush_start gid, r)).1 = true
      /\ forall ev,
           match ev with
           | DispatchEnded _ _ | Threw _ =>
               f_pc (run_flush (evs ++ [ev]) (flush_start gid, r)).1 = Finished
               /\ group_next_seq (run_flush (evs ++ [ev]) (flush_start gid, r)).2
                  = group_next_seq (run_flush evs (flush_start gid, r)).2 + 1
           | _ => True
           end)
  /\ (forall ev,
        entered_sequence (run_flush evs (flush_start gid, r)).1 = false ->
        entered_sequence (run_flush (evs ++ [ev]) (flush_start gid, r)).1 = true ->
        f_pc (run_flush (evs ++ [ev]) (flush_start gid, r)).1 = AtDispatch
        /\ my_seq (run_flush (evs ++ [ev]) (flush_start gid, r)).1
           = group_next_seq (run_flush (evs ++ [ev]) (flush_start gid, r)).2).
Proof.
  destruct (run_flush_spec evs gid r) as [Hinv Hacc].
  split; [lia|split].
  - intros Hpc. rewrite Hpc in Hinv. split; [done|].
    intros ev. rewrite run_flush_snoc.
    destruct (run_flush evs (flush_start gid, r)) as [t' r'].
    cbn [fst snd] in *. unfold flush_step.
    destruct ev as [now1 now2|e|raised eff|n]; [done| | |done]; rewrite Hpc.
    + destruct (flush_finally_spec t' r') as (-> & _ & ->). by rewrite Hinv.
    + destruct (flush_finally_spec t' (dispatched eff r')) as (-> & _ & ->).
      by rewrite Hinv.
  - intros ev. rewrite run_flush_snoc.
    destruct (run_flush evs (flush_start gid, r)) as [t' r'].
    cbn [fst snd] in *. by apply entered_sequence_set.
Qed.

Lemma flush_advances_counter_once_witness :
  group_next_seq
    (run_flush ([Resume 10 10] ++ [DispatchEnded (Some TimedOut) no_effect])
       (flush_start "g1", relay_with_album 0)).2
  = group_next_seq
      (run_flush [Resume 10 10] (flush_start "g1", relay_with_album 0)).2 + 1.
Proof.
  apply (proj2 (proj1 (proj2 (flush_advances_counter_once [Resume 10 10] "g1"
           (relay_with_album 0))) eq_refl)
           (DispatchEnded (Some TimedOut) no_effect)).
Defined.

(** ** simple_relay.py: the progress message *)

Section Progress.
Implicit Types (r : relay) (view : chat_view) (p : progress).

Lemma _init_progress_message_ok r view now chat es p r' view' :
  _init_progress_message r view None now chat es = (Ret p, r', view') ->
  p_chat_id p = Some chat /\ p_token p = now /\ p_message p = length view
  /\ progress_tokens r' !! chat = Some now
  /\ view' = view ++ [p_lines p].
Proof.
  unfold _init_progress_message.
  destruct (init_lines 1 es ([Heading], ∅)) as [lines index].
  intros [= <- <- <-]. cbn. split_and!; try done. apply lookup_insert_eq.
Qed.

(** A session whose token is not the one recorded for its chat is left
    as it is, and so is the chat. *)
Lemma finalize_stale r view now edit p es results fk chat :
  p_chat_id p = Some chat ->
  progress_tokens r !! chat <> Some (p_token p) ->
  _finalize_progress_message r view now edit p es results fk = (Ret tt, p, view).
Proof.
  intros Hc Ht. unfold _finalize_progress_message. rewrite Hc.
  by rewrite bool_decide_eq_true_2.
Qed.

(** Whatever it does, a finalize leaves the other messages alone. *)
Lemma finalize_other_messages r view now edit p es results fk h :
  h <> p_message p ->
  (_finalize_progress_message r view now edit p es results fk).2 !! h = view !! h.
Proof.
  intros Hh. unfold _finalize_progress_message.
  destruct (p_chat_id p); [|done]. case_bool_decide; [done|].
  destruct (finalize_lines _ _ _ _ _) as [lines []]; [|done].
  destruct edit; [done|]. cbn. by rewrite list_lookup_insert_ne.
Qed.

End Progress.

Example first_session_opened :
  _init_progress_message __init__ [] None 100 5 [channel (-1007) "news"]
  = (Ret first_session,
     set_progress {[ 5 := 0%nat ]} {[ 5 := 100 ]} __init__,
     [[Heading; Status Waiting "news"]]).
Proof. vm_compute. reflexivity. Qed.

Example live_session_finalized :
  _finalize_progress_message
    (set_progress {[ 5 := 0%nat ]} {[ 5 := 100 ]} __init__)
    [[Heading; Status Waiting "news"]] 150 None
    (with_src_key "self:5:11" first_session) [channel (-1007) "news"]
    [GTuple true (Some (-1007, "self:5:11"))] true
  = (Ret tt,
     with_lines [Heading; Status Succeeded "news"] 150
       (with_src_key "self:5:11" first_session),
     [[Heading; Status Succeeded "news"]]).
Proof. vm_compute. reflexivity. Qed.

Example failed_send_rendered :
  (_finalize_progress_message
     (set_progress {[ 5 := 0%nat ]} {[ 5 := 100 ]} __init__)
     [[Heading; Status Waiting "news"]] 150 None
     (with_src_key "self:5:11" first_session) [channel (-1007) "news"]
     [GTuple false (Some (-1007, "self:5:11"))] true).2
  = [[Heading; Status Failed "news"]].
Proof. vm_compute. reflexivity. Qed.

(** C8. A session is opened in a chat with the clock at [t1], and later
    another one in the same chat with the clock at a different [t2].  A
    finalize of the first session changes the session or the chat only in
    a relay whose token for the chat is still [t1]; run after the second
    session was opened, it changes neither, so the second session's
    message stays as it was posted. *)
Theorem stale_finalize_is_silent (r r' r1 r2 : relay)
    (view view' view1 view2 : chat_view) (chat t1 t2 : Z)
    (es1 es2 : list entry) (p1 p2 : progress) (k : string) :
  _init_progress_message r view None t1 chat es1 = (Ret p1, r1, view1) ->
  _init_progress_message r' view' None t2 chat es2 = (Ret p2, r2, view2) ->
  t2 <> t1 ->
  (forall r0 view0 now edit es results fk,
     _finalize_progress_message r0 view0 now edit (with_src_key k p1) es results fk
     <> (Ret tt, with_src_key k p1, view0) ->
     progress_tokens r0 !! chat = Some t1)
  /\ (forall now edit es results fk,
        _finalize_progress_message r2 view2 now edit (with_src_key k p1) es results fk
        = (Ret tt, with_src_key k p1, view2))
  /\ view2 !! p_message p2 = Some (p_lines p2).
Proof.
  intros H1 H2 Hne.
  apply _init_progress_message_ok in H1 as (Hc1 & Hk1 & _ & _ & _).
  apply _init_progress_message_ok in H2 as (_ & _ & Hm2 & Htok2 & ->).
  split_and!.
  - intros r0 view0 now edit es results fk Hchanged.
    destruct (decide (progress_tokens r0 !! chat = Some t1)) as [|Hstale]; [done|].
    destruct Hchanged. apply (finalize_stale _ _ _ _ _ _ _ _ chat); [done|].
    cbn. by rewrite Hk1.
  - intros now edit es results fk.
    apply (finalize_stale _ _ _ _ _ _ _ _ chat); [done|].
    cbn. rewrite Htok2, Hk1. congruence.
  - rewrite Hm2. by rewrite lookup_app_r, Nat.sub_diag.
Qed.

Lemma stale_finalize_is_silent_witness :
  _finalize_progress_message
    (set_progress {[ 5 := 1%nat ]} {[ 5 := 200 ]} __init__)
    [[Heading; Status Waiting "news"]; [Heading; Status Waiting "news"]]
    300 None (with_src_key "self:5:11" first_session) [channel (-1007) "news"]
    [GTuple true (Some (-1007, "self:5:11"))] true
  = (Ret tt, with_src_key "self:5:11" first_session,
     [[Heading; Status Waiting "news"]; [Heading; Status Waiting "news"]]).
Proof.
  apply (stale_finalize_is_silent
           __init__ (set_progress {[ 5 := 0%nat ]} {[ 5 := 100 ]} __init__)
           (set_progress {[ 5 := 0%nat ]} {[ 5 := 100 ]} __init__)
           (set_progress {[ 5 := 1%nat ]} {[ 5 := 200 ]} __init__)
           [] [[Heading; Status Waiting "news"]]
           [[Heading; Status Waiting "news"]]
           [[Heading; Status Waiting "news"]; [Heading; Status Waiting "news"]]
           5 100 200 [channel (-1007) "news"] [channel (-1007) "news"]
           first_session second_session "self:5:11").
  - vm_compute. reflexivity.
  - vm_compute. reflexivity.
  - discriminate.
Defined.

(** ** channel_utils.py: removing duplicates *)

Section Dedup.
Import Py PyFacts.

(** What [normalize_channel_token] returns, it returns again for it. *)
Lemma normalize_fixed s t :
  normalize_channel_token (Some s) = Some t ->
  normalize_channel_token (Some t) = Some t.
Proof.
  unfold normalize_channel_token at 1.
  destruct (truthy s); [|done]. cbn [negb].
  destruct (truthy (strip s)) eqn:Hne; [|done]. cbn [negb].
  apply normalize_stripped_fixed; [done|apply strip_idem].
Qed.

Lemma norm_or_self_idem ch : norm_or_self (norm_or_self ch) = norm_or_self ch.
Proof.
  destruct (normalize_channel_token (Some ch)) as [[|a t]|] eqn:Hn.
  - assert (norm_or_self ch = ch) as -> by (unfold norm_or_self; by rewrite Hn).
    unfold norm_or_self. by rewrite Hn.
  - assert (norm_or_self ch = String a t) as ->
      by (unfold norm_or_self; by rewrite Hn).
    unfold norm_or_self. by rewrite (normalize_fixed _ _ Hn).
  - assert (norm_or_self ch = ch) as -> by (unfold norm_or_self; by rewrite Hn).
    unfold norm_or_self. by rewrite Hn.
Qed.

(** The loop only appends to [result], what it appends comes from the
    input, the keys stay distinct, and every key of the input ends up among
    the keys of the result. *)
Lemma dedup_loop_spec l seen acc :
  (forall k, k ∈ seen <-> k ∈ map channel_key acc) ->
  NoDup (map channel_key acc) ->
  NoDup (map channel_key (dedup_loop l seen acc))
  /\ (exists suf,
        dedup_loop l seen acc = acc ++ suf
        /\ Forall (λ x, exists ch, ch ∈ l /\ x = norm_or_self ch) suf)
  /\ (forall ch, ch ∈ l ->
        channel_key (norm_or_self ch) ∈ map channel_key (dedup_loop l seen acc))
  /\ (forall x, x ∈ acc -> x ∈ dedup_loop l seen acc).
Proof.
  revert seen acc. induction l as [|ch l IH]; intros seen acc Hseen Hnd.
  { cbn. split_and!; [done| |by intros ? ?%elem_of_nil|done].
    exists []. by rewrite app_nil_r. }
  cbn [dedup_loop]. cbv zeta. case_decide as Hin.
  - destruct (IH seen acc Hseen Hnd) as (Hn & (suf & Heq & Hsuf) & Hall & Hacc).
    split_and!; [done| | |done].
    + exists suf. split; [done|].
      eapply Forall_impl; [exact Hsuf|]. intros x (c & ? & ->).
      exists c. split; [by right|done].
    + intros c [->|Hc]%elem_of_cons; [|by apply Hall].
      apply Hseen in Hin. apply list_elem_of_fmap in Hin as (x & -> & Hx).
      apply list_elem_of_fmap. exists x. split; [done|by apply Hacc].
  - destruct (IH ({[channel_key (norm_or_self ch)]} ∪ seen) (acc ++ [norm_or_self ch]))
      as (Hn & (suf & Heq & Hsuf) & Hall & Hacc).
    { intros k. rewrite map_app, elem_of_app, elem_of_union, elem_of_singleton.
      cbn. rewrite list_elem_of_singleton, Hseen. tauto. }
    { rewrite map_app. apply NoDup_app. split_and!; [done| |apply NoDup_singleton].
      intros k Hk ->%list_elem_of_singleton. by apply Hin, Hseen. }
    split_and!; [done| | |].
    + exists (norm_or_self ch :: suf). split; [by rewrite Heq, <- app_assoc|].
      constructor; [exists ch; split; [by left|done]|].
      eapply Forall_impl; [exact Hsuf|]. intros x (c & ? & ->).
      exists c. split; [by right|done].
    + intros c [->|Hc]%elem_of_cons; [|by apply Hall].
      apply list_elem_of_fmap. exists (norm_or_self ch). split; [done|].
      apply Hacc, elem_of_app. right. by left.
    + intros x Hx. apply Hacc, elem_of_app. by left.
Qed.

(** A list of tokens that normalising leaves alone, with distinct keys none
    of which was seen, is appended as it is. *)
Lemma dedup_loop_fixed l seen acc :
  Forall (λ x, norm_or_self x = x) l ->
  NoDup (map channel_key l) ->
  (forall x, x ∈ l -> channel_key x ∉ seen) ->
  dedup_loop l seen acc = acc ++ l.
Proof.
  revert seen acc. induction l as [|x l IH]; intros seen acc Hfix Hnd Hnew.
  { cbn. by rewrite app_nil_r. }
  apply Forall_cons in Hfix as [Hx Hfix]. cbn [map] in Hnd.
  apply NoDup_cons in Hnd as [Hxl Hnd].
  cbn [dedup_loop]. cbv zeta. rewrite Hx.
  rewrite decide_False by (apply Hnew; by left).
  rewrite IH; [by rewrite <- app_assoc|done|done|].
  intros y Hy. rewrite elem_of_union, elem_of_singleton. intros [Heq|Hs].
  - apply Hxl. rewrite <- Heq. apply list_elem_of_fmap. by exists y.
  - revert Hs. apply Hnew. by right.
Qed.

End Dedup.

Example dedup_channels_sample :
  dedup_channels ["@News"; "https://t.me/news/5"; "42"; "-10042"; "junk"; "junk"]
  = ["@News"; "-10042"; "junk"].
Proof. vm_compute. reflexivity. Qed.

(** X1. In what [dedup_channels] returns no two tokens have the same key,
    the key of a token being its lower-case form when it starts with [@]
    and the token itself otherwise. *)
Theorem dedup_channels_keys_distinct (channels : list string) :
  NoDup (map channel_key (dedup_channels channels)).
Proof.
  apply (dedup_loop_spec channels ∅ []); [|constructor].
  intros k. cbn. rewrite elem_of_nil. set_solver.
Qed.

(** X2. [dedup_channels] neither invents nor loses a channel: every token
    it returns is the normal form (or, failing that, the text) of one it
    was given, and the key of every token it was given is the key of one
    it returns. *)
Theorem dedup_channels_covers (channels : list string) :
  (forall x, x ∈ dedup_channels channels ->
     exists ch, ch ∈ channels /\ x = norm_or_self ch)
  /\ (forall ch, ch ∈ channels ->
        channel_key (norm_or_self ch) ∈ map channel_key (dedup_channels channels)).
Proof.
  destruct (dedup_loop_spec channels ∅ []) as (_ & (suf & Heq & Hsuf) & Hall & _).
  { intros k. cbn. rewrite elem_of_nil. set_solver. }
  { constructor. }
  split; [|done]. unfold dedup_channels. rewrite Heq. cbn [app].
  intros x Hx. by apply (proj1 (Forall_forall _ _) Hsuf).
Qed.

Lemma dedup_channels_covers_witness :
  channel_key (norm_or_self "https://t.me/News/7")
  ∈ map channel_key (dedup_channels ["@news"; "https://t.me/News/7"]).
Proof.
  apply (proj2 (dedup_channels_covers ["@news"; "https://t.me/News/7"])).
  right. left.
Defined.

(** X3. [dedup_channels] is idempotent. *)
Theorem dedup_channels_idempotent (channels : list string) :
  dedup_channels (dedup_channels channels) = dedup_channels channels.
Proof.
  destruct (dedup_loop_spec channels ∅ []) as (Hnd & (suf & Heq & Hsuf) & _ & _).
  { intros k. cbn. rewrite elem_of_nil. set_solver. }
  { constructor. }
  unfold dedup_channels at 1. rewrite dedup_loop_fixed; [done| |done|set_solver].
  unfold dedup_channels. rewrite Heq. cbn [app].
  eapply Forall_impl; [exact Hsuf|]. intros x (ch & _ & ->).
  apply norm_or_self_idem.
Qed.

(** ** simple_relay.py: the order of an album's parts *)

Section Sorting.
Implicit Types (x : message) (l : list message).

Lemma insert_by_id_perm x l : insert_by_id x l ≡ₚ x :: l.
Proof.
  induction l as [|y l IH]; cbn; [done|].
  case_match; [done|]. rewrite IH. apply Permutation_swap.
Qed.

Lemma insert_by_id_sorted x l :
  StronglySorted (λ a b, message_id a <= message_id b) l ->
  StronglySorted (λ a b, message_id a <= message_id b) (insert_by_id x l).
Proof.
  induction 1 as [|y l Hl IH Hy]; cbn.
  { repeat constructor. }
  destruct (message_id x <=? message_id y) eqn:Hxy.
  - apply Z.leb_le in Hxy. constructor; [by constructor|].
    constructor; [done|]. eapply Forall_impl; [exact Hy|]. cbn. lia.
  - apply Z.leb_gt in Hxy. constructor; [done|].
    rewrite insert_by_id_perm. constructor; [lia|done].
Qed.

Lemma insert_by_id_filter x l (k : Z) :
  filter (λ m, message_id m = k) (insert_by_id x l)
  = filter (λ m, message_id m = k) (x :: l).
Proof.
  induction l as [|y l IH]; cbn [insert_by_id]; [done|].
  destruct (message_id x <=? message_id y) eqn:Hxy; [done|].
  apply Z.leb_gt in Hxy. rewrite filter_cons, IH, !filter_cons.
  repeat case_decide; (done || lia).
Qed.

End Sorting.

Example sort_by_id_sample :
  map message_id
    (sort_by_id [album_part 2 5 "g" "a"; album_part 1 5 "g" "b"; album_part 3 5 "g" "c"])
  = [1; 2; 3].
Proof. reflexivity. Qed.

(** X4. The parts of an album are dispatched as a rearrangement of the
    parts that were buffered, in ascending order of message id, and parts
    with one and the same message id keep the order they arrived in. *)
Theorem sort_by_id_stable_sort (l : list message) :
  sort_by_id l ≡ₚ l
  /\ StronglySorted (λ a b, message_id a <= message_id b) (sort_by_id l)
  /\ forall k : Z,
       filter (λ m, message_id m = k) (sort_by_id l)
       = filter (λ m, message_id m = k) l.
Proof.
  unfold sort_by_id. induction l as [|x l (Hp & Hs & Hf)]; cbn [foldr].
  { split_and!; [done|constructor|done]. }
  split_and!.
  - by rewrite insert_by_id_perm, Hp.
  - by apply insert_by_id_sorted.
  - intros k. by rewrite insert_by_id_filter, !filter_cons, Hf.
Qed.

(** ** simple_relay.py: the retry budget *)

Section Budget.
Variables (func : api) (chat : Z).

Lemma calls_after_events {A} evs (x : list event * A) :
  calls (after_events evs x).1 = (calls evs + calls x.1)%nat.
Proof. unfold after_events. cbn. apply calls_app. Qed.

Lemma sleeps_after_events {A} evs (x : list event * A) :
  sleeps (after_events evs x).1 = sleeps evs ++ sleeps x.1.
Proof. unfold after_events. cbn. apply sleeps_app. Qed.

Lemma backoff_calls_le max_retries attempt script :
  attempt <= max_retries ->
  (calls (backoff_loop func chat max_retries attempt script).1
   <= Z.to_nat (max_retries - attempt) + rate_limit_answers script)%nat.
Proof.
  revert attempt. induction script as [|a script IH]; intros attempt Hle.
  { cbn. case_match; cbn; lia. }
  cbn [backoff_loop]. destruct (attempt <? max_retries) eqn:Hlt; [|cbn; lia].
  apply Z.ltb_lt in Hlt. unfold rate_limit_answers in *.
  destruct a as [v|e]; [cbn; lia|].
  destruct e; cbn [is_Exception List.filter length];
    rewrite ?calls_after_events; cbn [calls].
  - specialize (IH attempt Hle). lia.
  - specialize (IH (attempt + 1) ltac:(lia)). lia.
  - specialize (IH (attempt + 1) ltac:(lia)). lia.
  - specialize (IH (attempt + 1) ltac:(lia)). lia.
  - specialize (IH (attempt + 1) ltac:(lia)). lia.
  - cbn. lia.
Qed.

(** Failures that leave attempts over are passed by, each with its call. *)
Lemma backoff_loop_passes max_retries attempt es script :
  Forall (λ e, is_Exception e = true) es ->
  attempt + attempts_used es < max_retries ->
  calls (backoff_loop func chat max_retries attempt (map Raised es ++ script)).1
  = (length es
     + calls (backoff_loop func chat max_retries
                (attempt + attempts_used es) script).1)%nat
  /\ (backoff_loop func chat max_retries attempt (map Raised es ++ script)).2
     = (backoff_loop func chat max_retries (attempt + attempts_used es) script).2.
Proof.
  intros Hes. revert attempt. unfold attempts_used.
  induction Hes as [|e es He _ IH]; intros attempt Hlt.
  { cbn. by rewrite Z.add_0_r. }
  cbn [map app backoff_loop].
  assert (attempt < max_retries) as Ha
    by (cbn [List.filter] in Hlt; destruct (negb (rate_limited e)); cbn in Hlt; lia).
  rewrite (proj2 (Z.ltb_lt _ _) Ha).
  destruct e; try discriminate; cbn [is_Exception rate_limited negb List.filter] in *;
    rewrite ?calls_after_events; cbn [calls after_events snd fst length] in *.
  - destruct (IH attempt Hlt) as [-> ->]. split; [lia|done].
  - replace (attempt + Z.of_nat (S (length (List.filter (λ e, negb (rate_limited e)) es))))
      with (attempt + 1 + Z.of_nat (length (List.filter (λ e, negb (rate_limited e)) es)))
      in * by lia.
    destruct (IH (attempt + 1) Hlt) as [-> ->]. split; [lia|done].
  - replace (attempt + Z.of_nat (S (length (List.filter (λ e, negb (rate_limited e)) es))))
      with (attempt + 1 + Z.of_nat (length (List.filter (λ e, negb (rate_limited e)) es)))
      in * by lia.
    destruct (IH (attempt + 1) Hlt) as [-> ->]. split; [lia|done].
  - replace (attempt + Z.of_nat (S (length (List.filter (λ e, negb (rate_limited e)) es))))
      with (attempt + 1 + Z.of_nat (length (List.filter (λ e, negb (rate_limited e)) es)))
      in * by lia.
    destruct (IH (attempt + 1) Hlt) as [-> ->]. split; [lia|done].
  - replace (attempt + Z.of_nat (S (length (List.filter (λ e, negb (rate_limited e)) es))))
      with (attempt + 1 + Z.of_nat (length (List.filter (λ e, negb (rate_limited e)) es)))
      in * by lia.
    destruct (IH (attempt + 1) Hlt) as [-> ->]. split; [lia|done].
Qed.

(** Network errors from [attempt] on: the sleeps grow by one each time. *)
Lemma backoff_loop_transients max_retries attempt es script :
  Forall (λ e, transient e = true) es ->
  attempt + Z.of_nat (length es) = max_retries ->
  backoff_loop func chat max_retries attempt (map Raised es ++ script)
  = (flat_map (λ i, [EvCall func chat; EvSleep (1 * (attempt + Z.of_nat i))])
       (seq 1 (length es)),
     Raise (RuntimeError "send failed after retries")).
Proof.
  intros Hes. revert attempt. induction Hes as [|e es He _ IH]; intros attempt Hlen.
  { cbn in *. rewrite backoff_loop_exhausted by lia. done. }
  cbn [map app length]. rewrite backoff_loop_transient; [|cbn in Hlen; lia|done].
  rewrite IH by (cbn in Hlen; lia).
  unfold after_events. cbn [seq flat_map fst snd app]. f_equal.
  change (Z.of_nat 1) with 1. do 2 f_equal.
  rewrite <- (seq_shift (length es) 1).
  rewrite (flat_map_concat_map _ (map S _)), map_map, <- flat_map_concat_map.
  apply flat_map_ext. intros i. do 3 f_equal. lia.
Qed.

End Budget.

(** X5. [_send_with_backoff] calls the platform at most [max_retries] times
    plus once for every rate-limit signal among the answers. *)
Theorem backoff_calls_bounded (func : api) (chat max_retries : Z)
    (script : list answer) :
  0 <= max_retries ->
  (calls (_send_with_backoff func chat max_retries script).1
   <= Z.to_nat max_retries + rate_limit_answers script)%nat.
Proof.
  intros H. unfold _send_with_backoff.
  pose proof (backoff_calls_le func chat max_retries 0 script H) as Hle.
  by rewrite Z.sub_0_r in Hle.
Qed.

Lemma backoff_calls_bounded_witness :
  (calls (_send_with_backoff send_message 7 3
            [Raised TimedOut; Raised (RetryAfter 4); Raised (OtherError "x");
             Raised NetworkError; Returned 1]).1
   <= Z.to_nat 3 + rate_limit_answers
        [Raised TimedOut; Raised (RetryAfter 4); Raised (OtherError "x");
         Raised NetworkError; Returned 1])%nat.
Proof. apply (backoff_calls_bounded send_message 7 3). lia. Defined.

(** X6. When the failures before the platform's first acceptance are
    [Exception]s of which fewer than [max_retries] use up an attempt,
    [_send_with_backoff] returns the accepted call's value, having called
    once per failure and once more. *)
Theorem backoff_succeeds_within_budget (func : api) (chat max_retries : Z)
    (es : list exn) (v : Z) (rest : list answer) :
  Forall (λ e, is_Exception e = true) es ->
  attempts_used es < max_retries ->
  (_send_with_backoff func chat max_retries (map Raised es ++ Returned v :: rest)).2
  = Ret v
  /\ calls (_send_with_backoff func chat max_retries
              (map Raised es ++ Returned v :: rest)).1
     = S (length es).
Proof.
  intros Hes Hlt. unfold _send_with_backoff.
  destruct (backoff_loop_passes func chat max_retries 0 es (Returned v :: rest) Hes)
    as [-> ->]; [lia|].
  cbn [backoff_loop]. rewrite (proj2 (Z.ltb_lt _ _)) by lia. cbn. split; [done|lia].
Qed.

Lemma backoff_succeeds_within_budget_witness :
  (_send_with_backoff send_message 7 3
     (map Raised [TimedOut; RetryAfter 4; RetryAfter 4; OtherError "x"]
      ++ Returned 1 :: [])).2 = Ret 1.
Proof.
  apply (backoff_succeeds_within_budget send_message 7 3
           [TimedOut; RetryAfter 4; RetryAfter 4; OtherError "x"] 1 []).
  - repeat constructor.
  - vm_compute. reflexivity.
Defined.

(** X7. When the platform answers with as many time-outs or network errors
    as there are attempts, [_send_with_backoff] sleeps 1, 2, 3, ... between
    the calls, one unit more each time, and then raises its
    [RuntimeError] without another call. *)
Theorem backoff_is_linear (func : api) (chat : Z) (es : list exn)
    (rest : list answer) :
  Forall (λ e, transient e = true) es ->
  _send_with_backoff func chat (Z.of_nat (length es)) (map Raised es ++ rest)
  = (flat_map (λ i, [EvCall func chat; EvSleep (Z.of_nat i)]) (seq 1 (length es)),
     Raise (RuntimeError "send failed after retries")).
Proof.
  intros Hes. unfold _send_with_backoff.
  rewrite (backoff_loop_transients func chat _ 0 es rest Hes) by lia.
  f_equal. apply flat_map_ext. intros i. do 3 f_equal. lia.
Qed.

Lemma backoff_is_linear_witness :
  _send_with_backoff send_video 7 default_max_retries
    (map Raised [TimedOut; NetworkError; TimedOut] ++ [Returned 1])
  = ([EvCall send_video 7; EvSleep 1; EvCall send_video 7; EvSleep 2;
      EvCall send_video 7; EvSleep 3],
     Raise (RuntimeError "send failed after retries")).
Proof.
  apply (backoff_is_linear send_video 7 [TimedOut; NetworkError; TimedOut] [Returned 1]).
  repeat constructor.
Defined.

(** ** simple_relay.py: what a destination task leaves behind *)

Section Outcome.
Implicit Types (r : relay) (m : message) (e : entry) (env : send_env).

Lemma single_skips_entry now r cid k :
  single_skips now r cid k = true ->
  is_Some (sent_cache (_prune_cache now r) !! (cid, k)).
Proof.
  unfold single_skips. intros [_ H]%andb_prop. by apply bool_decide_eq_true in H.
Qed.

Lemma album_skips_entry now r cid k :
  album_skips now r cid k = true ->
  is_Some (sent_cache (_prune_cache now r) !! (cid, k)).
Proof. unfold album_skips. by intros H%bool_decide_eq_true. Qed.

Lemma pruned_entry_old now r key t :
  sent_cache (_prune_cache now r) !! key = Some t -> sent_cache r !! key = Some t.
Proof. by intros [? _]%lookup_prune_cache. Qed.

Lemma recorded_entry now now' r key key' t :
  sent_cache (record_sent key now' (_prune_cache now r)) !! key' = Some t ->
  sent_cache r !! key' = Some t \/ (key' = key /\ t = now').
Proof.
  destruct (decide (key = key')) as [<-|Hne].
  - rewrite lookup_record_sent. intros [= <-]. by right.
  - rewrite lookup_record_sent_ne by done. intros ?%pruned_entry_old. by left.
Qed.

Lemma _send_one_raises m cid script x :
  (_send_one m cid script).2 = Raise x -> is_Exception x = false.
Proof.
  unfold _send_one. destruct (send_method m); [|done].
  destruct (_send_with_backoff _ _ _ _) as [tr [v|y|]]; cbn; try done.
  destruct (is_Exception y) eqn:Hy; [done|]. by intros [= <-].
Qed.

End Outcome.

(** X8. Of the task [send_to_one]: when it reports success, the cache it
    leaves holds an entry for its destination and fingerprint; every
    entry of that cache was in the cache before or is the record of this
    very success; and it lets no [Exception] out. *)
Theorem send_to_one_outcome (r : relay) (env : send_env) (m : message)
    (src_key : string) (e : entry) :
  (forall key,
     s_result (send_to_one r env m src_key e) = Ret (true, Some key) ->
     is_Some (sent_cache (s_relay (send_to_one r env m src_key e)) !! key))
  /\ (forall key t,
        sent_cache (s_relay (send_to_one r env m src_key e)) !! key = Some t ->
        sent_cache r !! key = Some t
        \/ (s_result (send_to_one r env m src_key e) = Ret (true, Some key)
            /\ t = now_record env))
  /\ (forall x,
        s_result (send_to_one r env m src_key e) = Raise x ->
        is_Exception x = false).
Proof.
  unfold send_to_one. destruct (entry_cid e env) as [cid|x|]; cbn [s_relay s_result s_trace].
  2:{ split_and!; [by destruct (is_Exception x)|by left|].
      intros y. destruct (is_Exception x) eqn:Hx; [done|]. by intros [= <-]. }
  2:{ split_and!; try done. by left. }
  destruct (single_skips (now_prune env) r cid src_key) eqn:Hskip; cbn [s_relay s_result s_trace].
  { split_and!; [|by intros ?? ?%pruned_entry_old; left|done].
    intros key [= <-]. by apply single_skips_entry. }
  pose proof (_send_one_raises m cid (script env)) as Hraise.
  destruct (_send_one m cid (script env)) as [tr [[]|x|]]; cbn [s_relay s_result s_trace snd] in *.
  - split_and!; [|intros key t [?|[-> ->]]%recorded_entry; by auto|done].
    intros key [= <-]. rewrite lookup_record_sent. by eexists.
  - split_and!; [done|by intros ?? ?%pruned_entry_old; left|done].
  - rewrite (Hraise x eq_refl).
    split_and!; [done|by intros ?? ?%pruned_entry_old; left|].
    intros y [= <-]. by apply Hraise.
  - split_and!; [done|by intros ?? ?%pruned_entry_old; left|done].
Qed.

Lemma send_to_one_outcome_witness :
  is_Some (sent_cache (s_relay
     (send_to_one __init__ (env_at 100 [Raised TimedOut; Returned 1] 103)
        (text_message 11 5 "hello") "hash:77" (channel (-1007) "news")))
     !! (-1007, "hash:77")).
Proof.
  apply (proj1 (send_to_one_outcome __init__
           (env_at 100 [Raised TimedOut; Returned 1] 103)
           (text_message 11 5 "hello") "hash:77" (channel (-1007) "news"))).
  vm_compute. reflexivity.
Defined.

(** X9. The same of the task [send_album_to_one]; in addition it calls
    the platform only for an album with at least one photo, video or
    document. *)
Theorem send_album_to_one_outcome (r : relay) (env : send_env)
    (msgs : list message) (group_src_key : string) (e : entry) :
  (forall key,
     s_result (send_album_to_one r env msgs group_src_key e) = Ret (true, Some key) ->
     is_Some (sent_cache (s_relay (send_album_to_one r env msgs group_src_key e)) !! key))
  /\ (forall key t,
        sent_cache (s_relay (send_album_to_one r env msgs group_src_key e)) !! key
        = Some t ->
        sent_cache r !! key = Some t
        \/ (s_result (send_album_to_one r env msgs group_src_key e)
            = Ret (true, Some key)
            /\ t = now_record env))
  /\ (forall x,
        s_result (send_album_to_one r env msgs group_src_key e) = Raise x ->
        is_Exception x = false)
  /\ (media_list msgs = [] ->
      s_trace (send_album_to_one r env msgs group_src_key e) = []).
Proof.
  unfold send_album_to_one. destruct (entry_cid e env) as [cid|x|]; cbn [s_relay s_result s_trace].
  2:{ split_and!; [by destruct (is_Exception x)|by left| |done].
      intros y. destruct (is_Exception x) eqn:Hx; [done|]. by intros [= <-]. }
  2:{ split_and!; try done. by left. }
  destruct (album_skips (now_prune env) r cid group_src_key) eqn:Hskip; cbn [s_relay s_result s_trace].
  { split_and!; [|by intros ?? ?%pruned_entry_old; left|done|done].
    intros key [= <-]. by apply album_skips_entry. }
  destruct (media_list msgs) as [|mm rest]; cbn [s_relay s_result s_trace].
  { split_and!; [done|by intros ?? ?%pruned_entry_old; left|done|done]. }
  destruct (_send_media_group_no_retry cid (script env)) as [tr [v|x|]]; cbn [s_relay s_result s_trace].
  - split_and!; [|intros key t [?|[-> ->]]%recorded_entry; by auto|done|done].
    intros key [= <-]. rewrite lookup_record_sent. by eexists.
  - split_and!; [by destruct (is_Exception x)
                |by intros ?? ?%pruned_entry_old; left| |done].
    intros y. destruct (is_Exception x) eqn:Hx; [done|]. by intros [= <-].
  - split_and!; [done|by intros ?? ?%pruned_entry_old; left|done|done].
Qed.

Lemma send_album_to_one_outcome_witness :
  s_trace (send_album_to_one __init__ (env_at 100 [Returned 1] 101)
             [text_message 11 5 "only a caption"] "group::g1"
             (channel (-1007) "news")) = [].
Proof.
  apply (proj2 (proj2 (proj2 (send_album_to_one_outcome __init__
           (env_at 100 [Returned 1] 101) [text_message 11 5 "only a caption"]
           "group::g1" (channel (-1007) "news"))))).
  reflexivity.
Defined.

(** ** simple_relay.py: pruning *)

(** X10. Pruning never brings an entry in, and pruning at a time and
    then at a later time leaves what pruning at the later time alone
    leaves. *)
Theorem _prune_cache_compose (r : relay) (t1 t2 : Z) :
  t1 <= t2 ->
  sent_cache (_prune_cache t1 r) ⊆ sent_cache r
  /\ _prune_cache t2 (_prune_cache t1 r) = _prune_cache t2 r.
Proof.
  intros Hle. split.
  - unfold _prune_cache. cbn. apply map_filter_subseteq.
  - unfold _prune_cache, set_sent_cache. cbn. f_equal.
    apply map_eq. intros k. apply option_eq. intros t.
    rewrite !map_lookup_filter_Some. cbn. intuition lia.
Qed.

Lemma _prune_cache_compose_witness :
  _prune_cache 30000 (_prune_cache 20000 (record_sent (-1007, "hash:77") 0 __init__))
  = _prune_cache 30000 (record_sent (-1007, "hash:77") 0 __init__).
Proof.
  apply (_prune_cache_compose (record_sent (-1007, "hash:77") 0 __init__) 20000 30000).
  lia.
Defined.

(** ** simple_relay.py: more on flushing an album *)

Section FlushMore.
Implicit Types (r : relay).

Lemma lookup_prune_groups r (now : Z) (k : string) (t0 : Z) :
  processed_groups (_prune_groups now r) !! k = Some t0
  <-> processed_groups r !! k = Some t0 /\ now - t0 <= group_ttl.
Proof.
  unfold _prune_groups. cbn [processed_groups set_processed_groups].
  rewrite map_lookup_filter_Some. cbn [snd]. split; intros [? ?]; split; (done || lia).
Qed.

Lemma at_pc_same (t : flush_task) : at_pc (f_pc t) t = t.
Proof. by destruct t. Qed.

(** The task keeps its album, and once it has finished the album is
    neither buffered nor scheduled. *)
Lemma flush_step_cleans ev (t : flush_task) r :
  (f_pc t = Finished ->
   media_group_buffer r !! f_gid t = None /\ media_group_tasks r !! f_gid t = None) ->
  f_gid (flush_step ev (t, r)).1 = f_gid t
  /\ (f_pc (flush_step ev (t, r)).1 = Finished ->
      media_group_buffer (flush_step ev (t, r)).2 !! f_gid t = None
      /\ media_group_tasks (flush_step ev (t, r)).2 !! f_gid t = None).
Proof.
  intros Hfin.
  assert (forall r0, f_gid (flush_finally t r0).1 = f_gid t
            /\ (f_pc (flush_finally t r0).1 = Finished ->
                media_group_buffer (flush_finally t r0).2 !! f_gid t = None
                /\ media_group_tasks (flush_finally t r0).2 !! f_gid t = None))
    as Hfinally.
  { intros r0. unfold flush_finally. cbn. split; [done|]. intros _.
    by rewrite !lookup_delete_eq. }
  assert (forall t0 r0, f_gid (order_gate t0 r0).1 = f_gid t0
            /\ f_pc (order_gate t0 r0).1 <> Finished) as Hgate.
  { intros t0 r0. unfold order_gate. by case_bool_decide. }
  unfold flush_step. destruct ev as [now1 now2|x|raised eff|n], (f_pc t) eqn:Hpc;
    cbn [fst snd]; try (split; [done|]; (done || by intros [=]));
    try apply Hfinally;
    try (split; [done|]; intros Hf; cbn; first [by apply Hfin|congruence]).
  - unfold after_debounce.
    destruct (default [] (media_group_buffer r !! f_gid t)); [apply Hfinally|].
    cbv zeta. case_bool_decide.
    + match goal with |- context [flush_finally t ?x] => apply (Hfinally x) end.
    + match goal with |- context [order_gate ?x ?y] =>
        destruct (Hgate x y) as [-> ?] end. done.
  - destruct (Hgate t r) as [-> ?]. done.
Qed.

End FlushMore.

(** X11. An album whose source key carries a mark at most 7200 seconds
    old is not dispatched again: the flush ends at once, without taking
    the ordering token, and leaves the counter and the delivery cache as
    they were.  An album whose key carries no such mark is marked and
    goes on to the gate. *)
Theorem duplicate_album_is_suppressed (gid : string) (r : relay)
    (now_prune now_mark : Z) (m0 : message) (ms : list message) :
  media_group_buffer r !! gid = Some (m0 :: ms) ->
  (forall t0,
     processed_groups r
       !! _src_group_key (default m0 (head (sort_by_id (m0 :: ms)))) = Some t0 ->
     now_prune - t0 <= group_ttl ->
     f_pc (flush_step (Resume now_prune now_mark) (flush_start gid, r)).1 = Finished
     /\ entered_sequence
          (flush_step (Resume now_prune now_mark) (flush_start gid, r)).1 = false
     /\ group_next_seq (flush_step (Resume now_prune now_mark) (flush_start gid, r)).2
        = group_next_seq r
     /\ sent_cache (flush_step (Resume now_prune now_mark) (flush_start gid, r)).2
        = sent_cache r)
  /\ ((forall t0,
         processed_groups r
           !! _src_group_key (default m0 (head (sort_by_id (m0 :: ms)))) = Some t0 ->
         now_prune - t0 > group_ttl) ->
      f_pc (flush_step (Resume now_prune now_mark) (flush_start gid, r)).1 <> Finished
      /\ processed_groups
           (flush_step (Resume now_prune now_mark) (flush_start gid, r)).2
           !! _src_group_key (default m0 (head (sort_by_id (m0 :: ms))))
         = Some now_mark).
Proof.
  intros Hbuf. unfold flush_step, flush_start. cbn [f_pc].
  unfold after_debounce. cbn [f_gid]. rewrite Hbuf.
  cbn [default from_option id]. cbv zeta.
  split.
  - intros t0 Ht0 Hfresh. rewrite bool_decide_eq_true_2.
    2:{ exists t0. by apply lookup_prune_groups. }
    unfold flush_finally. cbn. done.
  - intros Hold. rewrite bool_decide_eq_false_2.
    2:{ intros [t0 [Ht0 Hfresh]%lookup_prune_groups]. cbn in Ht0.
        specialize (Hold t0 Ht0). lia. }
    unfold order_gate. case_bool_decide; cbn; (split; [done|]);
      apply lookup_insert_eq.
Qed.

Lemma duplicate_album_is_suppressed_witness :
  group_next_seq
    (flush_step (Resume 1000 1000)
       (flush_start "g1",
        set_processed_groups {[ "group::g1" := 10 ]} (relay_with_album 0))).2 = 0.
Proof.
  apply (proj1 (duplicate_album_is_suppressed "g1"
           (set_processed_groups {[ "group::g1" := 10 ]} (relay_with_album 0))
           1000 1000 (album_part 12 5 "g1" "f2") [album_part 11 5 "g1" "f1"]
           eq_refl) 10).
  - vm_compute. reflexivity.
  - vm_compute. discriminate.
Defined.

(** X12. However a flush runs, once it has finished its album is neither
    in the buffer nor among the scheduled tasks. *)
Theorem flush_cleans_up (evs : list flush_event) (gid : string) (r : relay) :
  f_pc (run_flush evs (flush_start gid, r)).1 = Finished ->
  media_group_buffer (run_flush evs (flush_start gid, r)).2 !! gid = None
  /\ media_group_tasks (run_flush evs (flush_start gid, r)).2 !! gid = None.
Proof.
  cut (f_gid (run_flush evs (flush_start gid, r)).1 = gid
       /\ (f_pc (run_flush evs (flush_start gid, r)).1 = Finished ->
           media_group_buffer (run_flush evs (flush_start gid, r)).2 !! gid = None
           /\ media_group_tasks (run_flush evs (flush_start gid, r)).2 !! gid = None)).
  { by intros [_ ?]. }
  induction evs as [|ev evs [Hgid IH]] using rev_ind; [done|].
  rewrite run_flush_snoc.
  destruct (run_flush evs (flush_start gid, r)) as [t' r']. cbn [fst snd] in *.
  subst gid. by apply flush_step_cleans.
Qed.

Lemma flush_cleans_up_witness :
  media_group_buffer
    (run_flush [Resume 10 10; Resume 11 11; Threw CancelledError]
       (flush_start "g1", relay_with_album 3)).2 !! "g1" = None.
Proof.
  apply (flush_cleans_up [Resume 10 10; Resume 11 11; Threw CancelledError]
           "g1" (relay_with_album 3)).
  vm_compute. reflexivity.
Defined.

(** X13. A flush that waits for the ordering token does nothing until the
    counter equals its number: as long as they differ, no number of polls
    changes the task or the relay.  At the first poll that finds them
    equal it takes the token and begins to dispatch. *)
Theorem flush_waits_for_its_turn (t : flush_task) (r : relay)
    (polls : list (Z * Z)) :
  f_pc t = AtOrderWait ->
  (my_seq t <> group_next_seq r ->
   run_flush (map (λ p, Resume p.1 p.2) polls) (t, r) = (t, r))
  /\ (my_seq t = group_next_seq r ->
      forall now1 now2,
        f_pc (flush_step (Resume now1 now2) (t, r)).1 = AtDispatch
        /\ entered_sequence (flush_step (Resume now1 now2) (t, r)).1 = true
        /\ (flush_step (Resume now1 now2) (t, r)).2 = r).
Proof.
  intros Hpc. split.
  - intros Hne. induction polls as [|p polls IH]; [done|].
    cbn [map]. unfold run_flush in *. cbn [foldl].
    replace (flush_step (Resume p.1 p.2) (t, r)) with (t, r); [done|].
    unfold flush_step. rewrite Hpc. unfold order_gate.
    rewrite bool_decide_eq_true_2 by done. by rewrite <- Hpc, at_pc_same.
  - intros Heq now1 now2. unfold flush_step. rewrite Hpc. unfold order_gate.
    rewrite bool_decide_eq_false_2 by (intros ?; done). done.
Qed.

Lemma flush_waits_for_its_turn_witness :
  run_flush (map (λ p, Resume p.1 p.2) [(11, 11); (12, 12); (13, 13)])
    (run_flush [Resume 10 10] (flush_start "g1", relay_with_album 3))
  = run_flush [Resume 10 10] (flush_start "g1", relay_with_album 3).
Proof.
  set (s := run_flush [Resume 10 10] (flush_start "g1", relay_with_album 3)).
  rewrite (surjective_pairing s).
  apply (flush_waits_for_its_turn s.1 s.2 [(11, 11); (12, 12); (13, 13)]).
  - vm_compute. reflexivity.
  - vm_compute. discriminate.
Defined.

(** ** simple_relay.py: buffering the parts of an album *)

Section Buffering.
Implicit Types (r : relay) (m : message).

Lemma _buffer_media_group_order m task r :
  group_order (_buffer_media_group m task r)
  = match group_order r !! str_of_group m with
    | Some _ => group_order r
    | None => <[str_of_group m := group_seq_counter r]> (group_order r)
    end
  /\ group_seq_counter (_buffer_media_group m task r)
     = match group_order r !! str_of_group m with
       | Some _ => group_seq_counter r
       | None => group_seq_counter r + 1
       end.
Proof.
  unfold _buffer_media_group. cbn. by destruct (group_order r !! str_of_group m).
Qed.


(** The numbers given out are below the counter and no two albums share
    one; a part that arrives leaves them so. *)
Lemma _buffer_media_group_tokens m task r :
  0 <= group_seq_counter r ->
  (forall g k, group_order r !! g = Some k -> 0 <= k < group_seq_counter r) ->
  (forall g1 g2 k,
     group_order r !! g1 = Some k -> group_order r !! g2 = Some k -> g1 = g2) ->
  (forall g k, group_order (_buffer_media_group m task r) !! g = Some k ->
     0 <= k < group_seq_counter (_buffer_media_group m task r))
  /\ (forall g1 g2 k,
        group_order (_buffer_media_group m task r) !! g1 = Some k ->
        group_order (_buffer_media_group m task r) !! g2 = Some k -> g1 = g2)
  /\ (forall g k, group_order r !! g = Some k ->
        group_order (_buffer_media_group m task r) !! g = Some k)
  /\ is_Some (group_order (_buffer_media_group m task r) !! str_of_group m)
  /\ 0 <= group_seq_counter (_buffer_media_group m task r).
Proof.
  intros Hpos Hrange Hinj.
  destruct (_buffer_media_group_order m task r) as [-> ->].
  destruct (group_order r !! str_of_group m) as [k0|] eqn:Hm.
  { split_and!; [done|done|done|by rewrite Hm|done]. }
  split_and!; [| | | |lia].
  - intros g k [[<- <-]|[_ Hg]]%lookup_insert_Some; [|apply Hrange in Hg]; lia.
  - intros g1 g2 k [[<- <-]|[? H1]]%lookup_insert_Some
                   [[<- Hk]|[? H2]]%lookup_insert_Some; try done.
    + apply Hrange in H2. lia.
    + subst k. apply Hrange in H1. lia.
    + by apply (Hinj g1 g2 k).
  - intros g k Hg. rewrite lookup_insert_ne; [done|]. intros <-. congruence.
  - rewrite lookup_insert_eq. by eexists.
Qed.

Lemma buffer_all_snoc parts p r :
  buffer_all (parts ++ [p]) r = _buffer_media_group p.1 p.2 (buffer_all parts r).
Proof. unfold buffer_all. by rewrite foldl_app. Qed.

End Buffering.

Example buffer_two_albums :
  group_order
    (buffer_all [(album_part 11 5 "g1" "a", 1); (album_part 21 5 "g2" "b", 2);
                 (album_part 12 5 "g1" "c", 3)] __init__)
  = {[ "g1" := 0; "g2" := 1 ]}.
Proof. vm_compute. reflexivity. Qed.

(** X14. However the parts of albums arrive at a fresh relay, every album
    that has arrived has an ordering number, the numbers are at least 0
    and below [group_seq_counter], and no two albums have the same. *)
Theorem ordering_numbers_distinct (parts : list (message * Z)) :
  (forall g k, group_order (buffer_all parts __init__) !! g = Some k ->
     0 <= k < group_seq_counter (buffer_all parts __init__))
  /\ (forall g1 g2 k,
        group_order (buffer_all parts __init__) !! g1 = Some k ->
        group_order (buffer_all parts __init__) !! g2 = Some k -> g1 = g2)
  /\ (forall p, p ∈ parts ->
        is_Some (group_order (buffer_all parts __init__) !! str_of_group p.1)).
Proof.
  cut (0 <= group_seq_counter (buffer_all parts __init__)
       /\ (forall g k, group_order (buffer_all parts __init__) !! g = Some k ->
             0 <= k < group_seq_counter (buffer_all parts __init__))
       /\ (forall g1 g2 k,
             group_order (buffer_all parts __init__) !! g1 = Some k ->
             group_order (buffer_all parts __init__) !! g2 = Some k -> g1 = g2)
       /\ (forall p, p ∈ parts ->
             is_Some (group_order (buffer_all parts __init__) !! str_of_group p.1))).
  { by intros [_ ?]. }
  induction parts as [|p parts (Hpos & Hrange & Hinj & Hall)] using rev_ind.
  { split_and!; [done|done|done|by intros ? ?%elem_of_nil]. }
  rewrite buffer_all_snoc.
  destruct (_buffer_media_group_tokens p.1 p.2 (buffer_all parts __init__)
              Hpos Hrange Hinj) as (Hrange' & Hinj' & Hkeep & Hnew & Hpos').
  split_and!; [done|done|done|].
  intros q [Hq|Hq%list_elem_of_singleton]%elem_of_app; [|by subst q].
  destruct (Hall q Hq) as [k Hk]. exists k. by apply Hkeep.
Qed.

Lemma ordering_numbers_distinct_witness :
  0 <= 1 < group_seq_counter
             (buffer_all [(album_part 11 5 "g1" "a", 1); (album_part 21 5 "g2" "b", 2)]
                __init__).
Proof.
  apply (proj1 (ordering_numbers_distinct
           [(album_part 11 5 "g1" "a", 1); (album_part 21 5 "g2" "b", 2)]) "g2" 1).
  vm_compute. reflexivity.
Defined.


(** ** simple_relay.py: what the progress message shows *)

Section Rendered.
Implicit Types (r : relay) (p : progress) (e : entry) (es : list entry).

(** An entry with an id or a token has the same key when the index is
    built and when it is read. *)
Lemma idx_key_keyed d e : idx_key "" e <> "" -> idx_key d e = idx_key "" e.
Proof.
  unfold idx_key. destruct (e_id e); [done|]. by destruct (e_token e) as [[|??]|].
Qed.

Lemma init_lines_lines (i : nat) es acc :
  (init_lines i es acc).1 = acc.1 ++ map (λ e, Status Waiting (display_name e)) es.
Proof.
  revert i acc. induction es as [|e es IH]; intros i acc; cbn [init_lines map].
  { by rewrite app_nil_r. }
  rewrite IH. cbn [fst]. by rewrite <- app_assoc.
Qed.

Lemma init_lines_index_other (i : nat) es acc (k : string) :
  Forall (λ e, idx_key "" e <> "") es ->
  k ∉ map (idx_key "") es ->
  (init_lines i es acc).2 !! k = acc.2 !! k.
Proof.
  intros Hkeyed. revert i acc.
  induction Hkeyed as [|e es He _ IH]; intros i acc Hk; [done|].
  cbn [init_lines map] in *. apply not_elem_of_cons in Hk as [Hne Hk].
  rewrite IH by done. cbn [snd]. rewrite (idx_key_keyed _ _ He).
  by rewrite lookup_insert_ne.
Qed.

Lemma init_lines_index (i : nat) es acc (j : nat) e :
  Forall (λ e, idx_key "" e <> "") es ->
  NoDup (map (idx_key "") es) ->
  es !! j = Some e ->
  (init_lines i es acc).2 !! idx_key "" e = Some (i + j)%nat.
Proof.
  intros Hkeyed. revert i acc j.
  induction Hkeyed as [|e0 es He0 Hes IH]; intros i acc j Hnd Hj; [done|].
  cbn [map] in Hnd. apply NoDup_cons in Hnd as [Hfresh Hnd].
  cbn [init_lines]. destruct j as [|j]; cbn in Hj.
  - injection Hj as ->. rewrite init_lines_index_other by done. cbn [snd].
    rewrite (idx_key_keyed (pretty i) _ He0), lookup_insert_eq. f_equal. lia.
  - rewrite (IH (S i) _ j Hnd Hj). f_equal. lia.
Qed.

(** When the index sends the entries of [pairs] to the positions from
    [S j] on, the loop writes their lines there and nowhere else. *)
Lemma finalize_lines_spec r fk p pairs (lines : list line) (j : nat) :
  (forall n e g, pairs !! n = Some (e, g) ->
     p_index p !! idx_key "" e = Some (S (j + n))) ->
  (S j + length pairs <= length lines)%nat ->
  finalize_lines r fk p pairs lines
  = (take (S j) lines ++ map (final_line r fk p) pairs
       ++ drop (S j + length pairs) lines, true).
Proof.
  revert lines j. induction pairs as [|[e g] pairs IH]; intros lines j Hidx Hlen.
  { cbn. by rewrite Nat.add_0_r, take_drop. }
  cbn [finalize_lines length] in *.
  rewrite (Hidx 0%nat e g eq_refl), Nat.add_0_r.
  rewrite decide_True by lia.
  rewrite (IH _ (S j)).
  - f_equal. cbn [map]. unfold final_line at 2. cbn [fst snd].
    rewrite (take_S_r _ (S j) (Status (if final_status r fk (p_src_key p) e g
                                        then Succeeded else Failed) (display_name e)))
      by (apply list_lookup_insert_eq; lia).
    rewrite take_insert_ge by lia. rewrite drop_insert_lt by lia.
    rewrite <- app_assoc. cbn [app].
    by replace (S (S j) + length pairs)%nat with (S j + S (length pairs))%nat by lia.
  - intros n e' g' Hn. rewrite (Hidx (S n) e' g' Hn). f_equal. lia.
  - rewrite length_insert. lia.
Qed.

End Rendered.

(** X16. A session is opened with one line per destination under the
    heading, each with the waiting mark, in the order of the registry; the
    text is posted as a new message at the end of the chat, and the chat's
    token and message are set to the new session's. *)
Theorem progress_opens_in_registry_order (r r1 : relay) (view view1 : chat_view)
    (now chat : Z) (es : list entry) (p : progress) :
  _init_progress_message r view None now chat es = (Ret p, r1, view1) ->
  p_lines p = Heading :: map (λ e, Status Waiting (display_name e)) es
  /\ view1 = view ++ [p_lines p]
  /\ progress_tokens r1 !! chat = Some (p_token p)
  /\ progress_messages r1 !! chat = Some (p_message p)
  /\ view1 !! p_message p = Some (p_lines p).
Proof.
  unfold _init_progress_message.
  pose proof (init_lines_lines 1 es ([Heading], ∅)) as Hlines.
  destruct (init_lines 1 es ([Heading], ∅)) as [lines index].
  intros [= <- <- <-]. cbn in *. subst lines.
  split_and!; [done|done|apply lookup_insert_eq|apply lookup_insert_eq|].
  by rewrite lookup_app_r, Nat.sub_diag.
Qed.

Lemma progress_opens_in_registry_order_witness :
  p_lines first_session
  = Heading :: map (λ e, Status Waiting (display_name e)) [channel (-1007) "news"].
Proof.
  apply (progress_opens_in_registry_order __init__
           (set_progress {[ 5 := 0%nat ]} {[ 5 := 100 ]} __init__)
           [] [[Heading; Status Waiting "news"]] 100 5
           [channel (-1007) "news"] first_session).
  vm_compute. reflexivity.
Defined.

(** X17. When every destination has an id or a token, no two of them the
    same, and the session is still the chat's latest, finalizing it with
    one result per destination rewrites the message to the heading and
    one line per destination in the order of the registry, each with the
    mark of that destination's status. *)
Theorem progress_closes_in_registry_order (r r1 r2 : relay)
    (view view1 view2 : chat_view) (now now2 chat : Z) (es : list entry)
    (p : progress) (k : string) (results : list gathered) (fk : bool) :
  Forall (λ e, idx_key "" e <> "") es ->
  NoDup (map (idx_key "") es) ->
  length results = length es ->
  _init_progress_message r view None now chat es = (Ret p, r1, view1) ->
  progress_tokens r2 !! chat = Some now ->
  _finalize_progress_message r2 view2 now2 None (with_src_key k p) es results fk
  = (Ret tt,
     with_lines (Heading :: map (final_line r2 fk (with_src_key k p)) (zip es results))
       now2 (with_src_key k p),
     <[p_message p := Heading :: map (final_line r2 fk (with_src_key k p))
                                    (zip es results)]> view2).
Proof.
  intros Hkeyed Hnd Hlen Hinit Htok.
  unfold _init_progress_message in Hinit.
  pose proof (init_lines_lines 1 es ([Heading], ∅)) as Hlines.
  pose proof (λ j e, init_lines_index 1 es ([Heading], ∅) j e Hkeyed Hnd) as Hindex.
  destruct (init_lines 1 es ([Heading], ∅)) as [lines index].
  injection Hinit as <- _ _. cbn [fst snd app] in *.
  unfold _finalize_progress_message. cbn [with_src_key p_chat_id p_token].
  rewrite bool_decide_eq_false_2 by (intros ?; congruence).
  cbn [p_lines p_message].
  rewrite (finalize_lines_spec _ _ _ _ _ 0).
  - subst lines. cbn [take app].
    rewrite drop_ge by (cbn; rewrite length_map, length_zip; lia).
    by rewrite app_nil_r.
  - intros n e g [He _]%lookup_zip_Some. cbn [p_index]. by apply Hindex.
  - subst lines. cbn. rewrite length_map, length_zip. lia.
Qed.

Lemma progress_closes_in_registry_order_witness :
  _finalize_progress_message
    (set_progress {[ 5 := 0%nat ]} {[ 5 := 100 ]} __init__)
    [[Heading; Status Waiting "news"]] 150 None
    (with_src_key "self:5:11" first_session) [channel (-1007) "news"]
    [GException TimedOut] true
  = (Ret tt,
     with_lines
       (Heading :: map (final_line (set_progress {[ 5 := 0%nat ]} {[ 5 := 100 ]} __init__)
                          true (with_src_key "self:5:11" first_session))
                       (zip [channel (-1007) "news"] [GException TimedOut]))
       150 (with_src_key "self:5:11" first_session),
     <[p_message first_session :=
         Heading :: map (final_line (set_progress {[ 5 := 0%nat ]} {[ 5 := 100 ]} __init__)
                           true (with_src_key "self:5:11" first_session))
                        (zip [channel (-1007) "news"] [GException TimedOut])]>
       [[Heading; Status Waiting "news"]]).
Proof.
  apply (progress_closes_in_registry_order __init__
           (set_progress {[ 5 := 0%nat ]} {[ 5 := 100 ]} __init__)
           (set_progress {[ 5 := 0%nat ]} {[ 5 := 100 ]} __init__)
           [] [[Heading; Status Waiting "news"]] [[Heading; Status Waiting "news"]]
           100 150 5 [channel (-1007) "news"] first_session "self:5:11"
           [GException TimedOut] true).
  - repeat constructor. vm_compute. discriminate.
  - repeat constructor. set_solver.
  - reflexivity.
  - vm_compute. reflexivity.
  - vm_compute. reflexivity.
Defined.

(** X18. Whatever a finalize does, it leaves every message of the chat
    but the session's own as it is, and the chat as long as it was. *)
Theorem finalize_touches_own_message_only (r : relay) (view : chat_view)
    (now : Z) (edit : option exn) (p : progress) (es : list entry)
    (results : list gathered) (fk : bool) (h : nat) :
  h <> p_message p ->
  (_finalize_progress_message r view now edit p es results fk).2 !! h = view !! h
  /\ length (_finalize_progress_message r view now edit p es results fk).2
     = length view.
Proof.
  intros Hh. split; [by apply finalize_other_messages|].
  unfold _finalize_progress_message.
  destruct (p_chat_id p); [|done]. case_bool_decide; [done|].
  destruct (finalize_lines _ _ _ _ _) as [lines []]; [|done].
  destruct edit; [done|]. cbn. by rewrite length_insert.
Qed.

Lemma finalize_touches_own_message_only_witness :
  (_finalize_progress_message
     (set_progress {[ 5 := 1%nat ]} {[ 5 := 200 ]} __init__)
     [[Heading; Status Waiting "news"]; [Heading; Status Waiting "news"]]
     300 None (with_src_key "self:5:12" second_session) [channel (-1007) "news"]
     [GTuple true (Some (-1007, "self:5:12"))] true).2 !! 0%nat
  = [[Heading; Status Waiting "news"]; [Heading; Status Waiting "news"]] !! 0%nat.
Proof.
  apply (finalize_touches_own_message_only
           (set_progress {[ 5 := 1%nat ]} {[ 5 := 200 ]} __init__)
           [[Heading; Status Waiting "news"]; [Heading; Status Waiting "news"]]
           300 None (with_src_key "self:5:12" second_session)
           [channel (-1007) "news"] [GTuple true (Some (-1007, "self:5:12"))] true 0%nat).
  vm_compute. discriminate.
Defined.

(** ** simple_relay.py: the keyboard of [/remove] *)

Section Keyboard.
Import Py PyFacts.
Implicit Types (e : entry) (es : list entry).

Lemma keyboard_loop_spec es (buttons : list (list button)) (row : list button) :
  (length row < 2)%nat ->
  Forall (λ row, length row = 2%nat) buttons ->
  Forall (λ row, length row = 2%nat) (keyboard_loop es buttons row).1
  /\ (length (keyboard_loop es buttons row).2 < 2)%nat
  /\ concat (keyboard_loop es buttons row).1 ++ (keyboard_loop es buttons row).2
     = concat buttons ++ row ++ map remove_button es.
Proof.
  revert buttons row. induction es as [|e es IH]; intros buttons row Hrow Hfull.
  { cbn. by rewrite app_nil_r. }
  cbn [keyboard_loop map]. case_decide as Hlen.
  - destruct (IH (buttons ++ [row ++ [remove_button e]]) []) as (H1 & H2 & H3).
    { cbn. lia. }
    { apply Forall_app. split; [done|]. by repeat constructor. }
    split_and!; [done|done|]. rewrite H3, concat_app. cbn.
    by rewrite app_nil_r, <- !app_assoc.
  - destruct (IH buttons (row ++ [remove_button e])) as (H1 & H2 & H3).
    { rewrite length_app in *. cbn in *. lia. }
    { done. }
    split_and!; [done|done|]. rewrite H3. by rewrite <- !app_assoc.
Qed.

(** The characters of a rendered integer are digits and the minus sign. *)
Lemma pretty_N_go_all (q : ascii -> bool) x s :
  (forall n, q (pretty_N_char n) = true) ->
  all_chars q s = true -> all_chars q (pretty_N_go x s) = true.
Proof.
  intros Hq. revert s. induction (N.lt_wf_0 x) as [x _ IH]; intros s Hs.
  destruct (decide (x = 0%N)) as [->|Hx]; [by rewrite pretty_N_go_0|].
  rewrite pretty_N_go_step by lia. apply IH.
  - apply N.div_lt; lia.
  - cbn [all_chars]. by rewrite Hq.
Qed.

Lemma pretty_N_all (q : ascii -> bool) (x : N) :
  (forall n, q (pretty_N_char n) = true) -> all_chars q (pretty x) = true.
Proof.
  intros Hq. unfold pretty, pretty_N. case_decide.
  - cbn [all_chars]. pose proof (Hq 0%N) as H0. cbn in H0. by rewrite H0.
  - by apply pretty_N_go_all.
Qed.

Lemma pretty_N_char_digit n : re_digit (pretty_N_char n) = true.
Proof. unfold pretty_N_char. by repeat case_match. Qed.

Lemma pretty_Z_not_None (z : Z) : pretty z <> "None".
Proof.
  intros H.
  assert (all_chars (λ c, re_digit c || bool_decide (c = "-"%char)) (pretty z) = true)
    as Hall.
  { destruct z as [|x|x]; unfold pretty, pretty_Z; [done| |].
    - apply pretty_N_all. intros n. by rewrite pretty_N_char_digit.
    - rewrite app_cons, app_nil. cbn [all_chars]. cbn.
      apply pretty_N_all. intros n. by rewrite pretty_N_char_digit. }
  by rewrite H in Hall.
Qed.

Lemma str_of_id_eq (o : option Z) (i : Z) : str_of_id o = pretty i <-> o = Some i.
Proof.
  destruct o as [n|]; cbn.
  - split; [by intros ->%(inj pretty)|by intros [= ->]].
  - split; [|done]. intros H. symmetry in H. by apply pretty_Z_not_None in H.
Qed.

Lemma filter_drops (f : entry -> bool) es e :
  e ∈ es -> f e = false -> length (List.filter f es) <> length es.
Proof.
  intros He Hf.
  assert (forall l, length (List.filter f l) <= length l)%nat as Hle.
  { induction l as [|x l IHl]; cbn; [lia|]. destruct (f x); cbn; lia. }
  induction es as [|x es IH]; [by apply elem_of_nil in He|].
  cbn. apply elem_of_cons in He as [<-|He].
  - rewrite Hf. specialize (Hle es). lia.
  - destruct (f x); cbn; [|specialize (Hle es); lia].
    specialize (IH He). lia.
Qed.

End Keyboard.

Example keyboard_of_three :
  map (map callback_data)
    (_build_remove_keyboard [channel (-1007) "a"; channel (-1008) "b"; channel (-1009) "c"])
  = [["remove:id:-1007"; "remove:id:-1008"]; ["remove:id:-1009"]; ["remove:close"]].
Proof. vm_compute. reflexivity. Qed.

(** X19. The keyboard of [/remove] has one button per entry, in the order
    of the registry, in rows of two, the last of these rows holding one
    button when the entries are odd in number, and then a row with the
    close button alone. *)
Theorem keyboard_rows (entries : list entry) :
  exists (pairs last : list (list button)),
    _build_remove_keyboard entries
    = pairs ++ last ++ [[ {| b_label := Close; callback_data := "remove:close" |} ]]
    /\ Forall (λ row, length row = 2%nat) pairs
    /\ (last = [] \/ exists b, last = [[b]])
    /\ concat (pairs ++ last) = map remove_button entries.
Proof.
  unfold _build_remove_keyboard.
  destruct (keyboard_loop_spec entries [] []) as (Hfull & Hrow & Hcat);
    [cbn; lia|constructor|].
  destruct (keyboard_loop entries [] []) as [buttons row]. cbn [fst snd] in *.
  destruct row as [|b [|b' row]]; [| |cbn in Hrow; lia].
  - exists buttons, []. split_and!; [done|done|by left|].
    cbn in Hcat. rewrite (app_nil_r (concat buttons)) in Hcat.
    by rewrite (app_nil_r buttons).
  - exists buttons, [[b]]. split_and!; [by rewrite <- app_assoc|done|by eauto|].
    rewrite concat_app. cbn in *. by rewrite Hcat.
Qed.

(** X20. A click on the button of an entry that is in the registry removes
    that entry: for an entry with an id, exactly the entries with that id
    go; for an entry without one, exactly the entries with its token. *)
Theorem button_removes_its_entry (e : entry) (entries : list entry) :
  e ∈ entries ->
  cb_remove (callback_data (remove_button e)) entries
  = Saved (List.filter
             (λ e', negb (match e_id e with
                          | Some i => bool_decide (e_id e' = Some i)
                          | None => bool_decide (str_or_empty (e_token e')
                                                 = str_or_empty (e_token e))
                          end)) entries).
Proof.
  intros He. unfold cb_remove, remove_button. cbn [callback_data].
  destruct (e_id e) as [i|] eqn:Hid.
  - rewrite decide_False by (by rewrite !PyFacts.app_cons).
    change (split_colon_2 ("remove:id:" +:+ pretty i)) with ["remove"; "id"; pretty i].
    cbv iota. destruct (decide ("id" = "id")); [|done].
    assert (List.filter (λ e0, negb (bool_decide (str_of_id (e_id e0) = pretty i))) entries
            = List.filter (λ e', negb (bool_decide (e_id e' = Some i))) entries) as ->.
    { apply List.filter_ext. intros e'. f_equal. apply bool_decide_ext, str_of_id_eq. }
    rewrite decide_False; [done|].
    apply (filter_drops _ _ e He). by rewrite Hid, bool_decide_eq_true_2.
  - rewrite decide_False by (by rewrite !PyFacts.app_cons).
    change (split_colon_2 ("remove:tok:" +:+ str_or_empty (e_token e)))
      with ["remove"; "tok"; str_or_empty (e_token e)].
    cbv iota. destruct (decide ("tok" = "id")); [done|].
    rewrite decide_False; [done|].
    apply (filter_drops _ _ e He). by rewrite bool_decide_eq_true_2.
Qed.

Lemma button_removes_its_entry_witness :
  cb_remove "remove:id:-1008" [channel (-1007) "a"; channel (-1008) "b"]
  = Saved [channel (-1007) "a"].
Proof.
  apply (button_removes_its_entry (channel (-1008) "b")
           [channel (-1007) "a"; channel (-1008) "b"]).
  right. left.
Defined.

Example click_on_close : cb_remove "remove:close" [channel (-1007) "a"] = Closed.
Proof. reflexivity. Qed.

Example click_on_junk : cb_remove "remove:id" [channel (-1007) "a"] = Ignored.
Proof. reflexivity. Qed.

Example click_on_gone :
  cb_remove "remove:id:-1009" [channel (-1007) "a"] = NotFound.
Proof. vm_compute. reflexivity. Qed.

(** ** simple_relay.py: links in entities *)

Section Entities.
Import Py PyFacts.

Lemma str_app_assoc (a b c : string) : (a +:+ b) +:+ c = a +:+ (b +:+ c).
Proof. induction a as [|x a IH]; [done|]. by rewrite !app_cons, IH. Qed.

Lemma str_app_nil_r (a : string) : a +:+ "" = a.
Proof. induction a as [|x a IH]; [done|]. by rewrite app_cons, IH. Qed.

Lemma after_app (s r : string) : after s (s +:+ r) = Some r.
Proof.
  induction s as [|x s IH]; [by destruct r|].
  rewrite app_cons. cbn [after]. by rewrite decide_True.
Qed.

Lemma after_all (q : ascii -> bool) (p s r : string) :
  all_chars q s = true -> after p s = Some r -> all_chars q r = true.
Proof.
  revert s. induction p as [|x p IH]; intros s Hs.
  { destruct s; cbn; by intros [= <-]. }
  destruct s as [|y s]; cbn [after]; [done|].
  case_decide; [|done]. cbn [all_chars] in Hs. apply andb_prop in Hs as [_ Hs].
  by apply IH.
Qed.

(** A run of characters of a class is what [span] takes when the text
    ends there or goes on with a character outside the class. *)
Lemma span_app (q : ascii -> bool) (s r : string) :
  all_chars q s = true ->
  match r with EmptyString => True | String c _ => q c = false end ->
  span q (s +:+ r) = s.
Proof.
  intros Hs Hr. induction s as [|x s IH].
  - rewrite app_nil. destruct r as [|c r]; [done|]. cbn. by rewrite Hr.
  - cbn [all_chars] in Hs. apply andb_prop in Hs as [Hx Hs].
    rewrite app_cons. cbn [span]. by rewrite Hx, IH.
Qed.

Lemma lstrip_minus_digits (s : string) :
  all_chars re_digit s = true -> lstrip_minus s = s.
Proof.
  destruct s as [|c s]; [done|]. cbn [all_chars]. intros [Hc _]%andb_prop.
  cbn [lstrip_minus]. destruct c as [[] [] [] [] [] [] [] []]; done.
Qed.

Lemma pretty_N_digits (x : N) : all_chars re_digit (pretty x) = true.
Proof. apply pretty_N_all, pretty_N_char_digit. Qed.

(** The id written into links consists of digits. *)
Lemma new_channel_id_digits (t : Z) : all_chars re_digit (new_channel_id t) = true.
Proof.
  unfold new_channel_id.
  assert (exists d, all_chars re_digit d = true
                    /\ (pretty t = d \/ pretty t = String "-" d)) as (d & Hd & Ht).
  { destruct t as [|x|x]; unfold pretty, pretty_Z.
    - by exists "0"; split; [|left].
    - exists (pretty (N.pos x)). split; [apply pretty_N_digits|by left].
    - exists (pretty (N.pos x)). split; [apply pretty_N_digits|].
      right. by rewrite app_cons, app_nil. }
  destruct Ht as [-> | ->].
  - destruct (after "-100" d) as [rest|] eqn:Ha; [by apply (after_all _ _ _ _ Hd Ha)|].
    by rewrite lstrip_minus_digits.
  - destruct (after "-100" (String "-" d)) as [rest|] eqn:Ha.
    + change (after "-100" (String "-" d)) with (after "100" d) in Ha.
      by apply (after_all _ _ _ _ Hd Ha).
    + cbn [lstrip_minus]. by rewrite lstrip_minus_digits.
Qed.

Lemma match_c_message_digits (u g : string) :
  match_c_message u = Some g -> truthy g = true /\ all_chars re_digit g = true.
Proof.
  unfold match_c_message. destruct (after _ u) as [r|]; [|done].
  destruct (span re_digit r) as [|c g1] eqn:Hg1; [done|].
  destruct (after _ r) as [r'|]; [|done].
  pose proof (all_chars_span re_digit r') as Hall.
  destruct (span re_digit r'); [done|]. by intros [= <-].
Qed.

(** What the pattern finds in a link that the relay has written. *)
Lemma match_c_message_rewritten (n g : string) :
  all_chars re_digit n = true -> all_chars re_digit g = true -> truthy g = true ->
  match_c_message ("https://t.me/c/" +:+ n +:+ "/" +:+ g)
  = if truthy n then Some g else None.
Proof.
  intros Hn Hg Hne. unfold match_c_message.
  rewrite after_app.
  change ("/" +:+ g) with (String "/" g).
  rewrite (span_app re_digit n (String "/" g)) by done.
  destruct n as [|c n]; [done|]. cbn [truthy].
  change (String "/" g) with ("/" +:+ g).
  rewrite <- (str_app_assoc (String c n) "/" g), after_app.
  pose proof (span_app re_digit g "" Hg I) as Hspan.
  rewrite str_app_nil_r in Hspan. rewrite Hspan.
  by destruct g.
Qed.

Lemma rewrite_entity_again (t1 t2 : Z) (ent : entity) :
  t1 = t2 \/ truthy (new_channel_id t1) = true ->
  rewrite_entity t2 (rewrite_entity t1 ent) = rewrite_entity t2 ent.
Proof.
  intros Ht. unfold rewrite_entity at 2 3.
  destruct (decide (ent_type ent = "text_link")) as [Hty|Hty].
  2:{ unfold rewrite_entity. by rewrite decide_False. }
  destruct (ent_url ent) as [[|a u]|] eqn:Hu.
  1,3: unfold rewrite_entity; by rewrite decide_True, Hu.
  destruct (match_c_message (String a u)) as [g|] eqn:Hm.
  2:{ unfold rewrite_entity. by rewrite decide_True, Hu, Hm. }
  apply match_c_message_digits in Hm as [Hne Hg].
  unfold rewrite_entity. cbn [ent_type ent_url ent_offset ent_length].
  rewrite decide_True by done.
  pose proof (match_c_message_rewritten (new_channel_id t1) g
                (new_channel_id_digits t1) Hg Hne) as Hagain.
  set (url := "https://t.me/c/" +:+ new_channel_id t1 +:+ "/" +:+ g) in *.
  assert (exists a0 u0, url = String a0 u0) as (a0 & u0 & Hurl)
    by (unfold url; rewrite app_cons; eauto).
  rewrite Hurl in *. rewrite Hagain.
  destruct (truthy (new_channel_id t1)) eqn:Hn1; [done|].
  destruct Ht as [<-|?]; [|done]. by rewrite <- Hurl.
Qed.

End Entities.

Example entity_rewritten :
  rewrite_entity (-1001234)
    {| ent_type := "text_link"; ent_offset := 3; ent_length := 4;
       ent_url := Some "https://t.me/c/777/45?single" |}
  = {| ent_type := "text_link"; ent_offset := 3; ent_length := 4;
       ent_url := Some "https://t.me/c/1234/45" |}.
Proof. vm_compute. reflexivity. Qed.

Example entity_of_other_site_kept :
  rewrite_entity (-1001234)
    {| ent_type := "text_link"; ent_offset := 3; ent_length := 4;
       ent_url := Some "https://example.org/c/777/45" |}
  = {| ent_type := "text_link"; ent_offset := 3; ent_length := 4;
       ent_url := Some "https://example.org/c/777/45" |}.
Proof. vm_compute. reflexivity. Qed.

(** X21. [_process_links_for_ptb] returns the text as [link_processor]
    rewrites it and as many entities as it was given, each with the type,
    offset and length it had; an entity is changed only if it is a text
    link to a message of a private channel, and then its link is the one
    to the message of that number in the target channel. *)
Theorem entities_keep_their_place (process_telegram_links : string -> Z -> string)
    (text : string) (entities : list entity) (target_chat_id : Z) :
  (_process_links_for_ptb process_telegram_links text entities target_chat_id).1
  = process_telegram_links text target_chat_id
  /\ Forall2
       (λ ent new,
          ent_type new = ent_type ent /\ ent_offset new = ent_offset ent
          /\ ent_length new = ent_length ent
          /\ (new = ent
              \/ (ent_type ent = "text_link"
                  /\ exists u msg_id,
                       ent_url ent = Some u /\ match_c_message u = Some msg_id
                       /\ ent_url new
                          = Some ("https://t.me/c/" +:+ new_channel_id target_chat_id
                                  +:+ "/" +:+ msg_id))))
       entities
       (_process_links_for_ptb process_telegram_links text entities target_chat_id).2.
Proof.
  split; [done|]. cbn [_process_links_for_ptb snd].
  induction entities as [|ent entities IH]; cbn [map]; constructor; [|done].
  unfold rewrite_entity.
  destruct (decide (ent_type ent = "text_link")) as [Hty|Hty]; [|by auto].
  destruct (ent_url ent) as [[|a u]|] eqn:Hu; [by auto| |by auto].
  destruct (match_c_message (String a u)) as [g|] eqn:Hm; [|by auto].
  cbn. split_and!; [done|done|done|]. right. split; [done|]. by exists (String a u), g.
Qed.

(** X22. Rewriting the entities for a target a second time changes
    nothing; and entities already rewritten for one target, whose id does
    not reduce to the empty string, are rewritten for another target as
    the original ones would be. *)
Theorem entities_rewrite_again (process_telegram_links : string -> Z -> string)
    (text text' : string) (entities : list entity) (t1 t2 : Z) :
  t1 = t2 \/ Py.truthy (new_channel_id t1) = true ->
  (_process_links_for_ptb process_telegram_links text'
     (_process_links_for_ptb process_telegram_links text entities t1).2 t2).2
  = (_process_links_for_ptb process_telegram_links text entities t2).2.
Proof.
  intros Ht. cbn [_process_links_for_ptb snd]. rewrite map_map.
  apply map_ext. intros ent. by apply rewrite_entity_again.
Qed.

Lemma entities_rewrite_again_witness :
  (_process_links_for_ptb (λ s _, s) "b"
     (_process_links_for_ptb (λ s _, s) "a"
        [{| ent_type := "text_link"; ent_offset := 0; ent_length := 1;
            ent_url := Some "https://t.me/c/777/45" |}] (-100)).2 (-100)).2
  = (_process_links_for_ptb (λ s _, s) "a"
       [{| ent_type := "text_link"; ent_offset := 0; ent_length := 1;
           ent_url := Some "https://t.me/c/777/45" |}] (-100)).2.
Proof.
  apply (entities_rewrite_again (λ s _, s) "a" "b"
           [{| ent_type := "text_link"; ent_offset := 0; ent_length := 1;
               ent_url := Some "https://t.me/c/777/45" |}] (-100) (-100)).
  by left.
Defined.

(** ** simple_relay.py: adding channels *)

Section Adding.
Variable get_chat : string -> option chat.

(** The keys cover the ids of the entries, the ids are distinct, and the
    entries only grow, by one entry with an id for each name added. *)
Lemma api_add_spec (uniq : list (string * option string)) (st : adding) :
  (forall e, e ∈ a_entries st -> str_of_id (e_id e) ∈ a_keys st) ->
  NoDup (omap e_id (a_entries st)) ->
  NoDup (omap e_id (a_entries (api_add get_chat uniq st)))
  /\ exists new,
       a_entries (api_add get_chat uniq st) = a_entries st ++ new
       /\ Forall (λ e, is_Some (e_id e)) new
       /\ a_added (api_add get_chat uniq st) = a_added st ++ omap e_name new.
Proof.
  revert st. induction uniq as [|[raw [norm|]] uniq IH]; intros st Hkeys Hnd.
  - cbn. split; [done|]. exists []. by rewrite !app_nil_r.
  - cbn [api_add]. destruct (get_chat norm) as [c|]; [|match goal with |- context [api_add _ _ ?s] => exact (IH s Hkeys Hnd) end].
    cbv zeta. case_decide as Hin; [match goal with |- context [api_add _ _ ?s] => exact (IH s Hkeys Hnd) end|].
    match goal with |- context [api_add _ _ ?s] => destruct (IH s) as (H1 & new & H2 & H3 & H4) end.
    + cbn [a_entries a_keys]. intros e [He|He%list_elem_of_singleton]%elem_of_app.
      * apply Hkeys in He. rewrite !elem_of_union. auto.
      * subst e. cbn. rewrite !elem_of_union, !elem_of_singleton. auto.
    + cbn [a_entries]. rewrite omap_app. cbn. apply NoDup_app. split_and!; [done| |].
      * intros i Hi ->%list_elem_of_singleton. apply Hin. left.
        apply list_elem_of_omap in Hi as (e & He & Hid).
        apply Hkeys in He. by rewrite Hid in He.
      * apply NoDup_singleton.
    + split; [done|]. cbn [a_entries a_added] in *.
      eexists (_ :: new). split_and!.
      * rewrite H2. by rewrite <- app_assoc.
      * constructor; [by eexists|done].
      * rewrite H4. cbn. by rewrite <- app_assoc.
  - cbn [api_add]. match goal with |- context [api_add _ _ ?s] => exact (IH s Hkeys Hnd) end.
Qed.

Lemma existing_keys_ids (entries : list entry) (e : entry) :
  e ∈ entries -> str_of_id (e_id e) ∈ existing_keys entries.
Proof.
  intros He. unfold existing_keys. apply elem_of_union. left.
  apply elem_of_list_to_set, list_elem_of_fmap. by exists e.
Qed.

End Adding.

Example add_two_links_to_one_channel :
  a_added
    (add_channels_via_api
       (λ norm, Some {| c_id := -1007; c_title := Some "News"; c_username := Some "news" |})
       ["https://t.me/news/5"; "@NEWS"; "-1007"] [])
  = ["News"].
Proof. vm_compute. reflexivity. Qed.

(** X23. [add_channels_via_api] only appends to the registry: one entry,
    with the id of its chat, for each name it reports as added; and if no
    two entries of the registry had the same id, no two have afterwards. *)
Theorem add_keeps_ids_distinct (get_chat : string -> option chat)
    (items : list string) (entries : list entry) :
  NoDup (omap e_id entries) ->
  NoDup (omap e_id (a_entries (add_channels_via_api get_chat items entries)))
  /\ exists new,
       a_entries (add_channels_via_api get_chat items entries) = entries ++ new
       /\ Forall (λ e, is_Some (e_id e)) new
       /\ a_added (add_channels_via_api get_chat items entries) = omap e_name new.
Proof.
  intros Hnd. unfold add_channels_via_api.
  match goal with |- context [api_add _ ?u ?s] =>
    destruct (api_add_spec get_chat u s) as (H1 & new & H2 & H3 & H4) end.
  - cbn. intros e. apply existing_keys_ids.
  - done.
  - split; [done|]. by exists new.
Qed.

Lemma add_keeps_ids_distinct_witness :
  NoDup (omap e_id (a_entries
    (add_channels_via_api
       (λ norm, Some {| c_id := -1007; c_title := Some "News"; c_username := Some "news" |})
       ["https://t.me/news/5"; "@other"] [channel (-1007) "News"]))).
Proof.
  apply (add_keeps_ids_distinct
           (λ norm, Some {| c_id := -1007; c_title := Some "News"; c_username := Some "news" |})
           ["https://t.me/news/5"; "@other"] [channel (-1007) "News"]).
  cbn. apply NoDup_singleton.
Defined.

(** ** simple_relay.py: the channels the bot was seen in *)

Section Discovered.
Implicit Types (c : chat) (entries : list discovered).

Lemma update_first_ids c entries :
  map d_id (update_first c entries).1 = map d_id entries
  /\ ((update_first c entries).2 = true <-> c_id c ∈ map d_id entries)
  /\ List.filter (λ e, negb (bool_decide (pretty (d_id e) = pretty (c_id c))))
       (update_first c entries).1
     = List.filter (λ e, negb (bool_decide (pretty (d_id e) = pretty (c_id c))))
         entries.
Proof.
  induction entries as [|e entries (IH1 & IH2 & IH3)]; cbn [update_first].
  { cbn. split_and!; [done| |done]. split; [done|]. by intros ?%elem_of_nil. }
  case_decide as Heq.
  - cbn. split_and!; [done| |].
    + split; [|done]. intros _. apply (inj pretty) in Heq. rewrite Heq. by left.
    + by rewrite !bool_decide_eq_true_2.
  - destruct (update_first c entries) as [l found]. cbn in *.
    split_and!; [by rewrite IH1| |].
    + rewrite IH2. split; [by right|].
      intros [Hc|?]%elem_of_cons; [|done]. by rewrite Hc in Heq.
    + rewrite !bool_decide_eq_false_2 by done. cbn. by rewrite IH3.
Qed.

End Discovered.

(** X24. Seeing a channel leaves the ids of the discovered channels as
    they were when the channel's id is among them, and appends the id
    otherwise; the channels with another id are kept as they are. *)
Theorem upsert_discovered_ids (c : chat) (entries : list discovered) :
  map d_id (upsert_discovered c entries)
  = (if decide (c_id c ∈ map d_id entries) then map d_id entries
     else map d_id entries ++ [c_id c])
  /\ forget_discovered c (upsert_discovered c entries) = forget_discovered c entries.
Proof.
  unfold upsert_discovered, forget_discovered.
  destruct (update_first_ids c entries) as (Hids & Hfound & Hrest).
  destruct (update_first c entries) as [l [|]]; cbn [fst snd] in *.
  - rewrite decide_True by (by apply Hfound). done.
  - rewrite decide_False by (intros H; by apply Hfound in H).
    rewrite map_app, Hids. split; [done|].
    rewrite List.filter_app, Hrest. cbn.
    rewrite bool_decide_eq_true_2 by done. cbn. by rewrite app_nil_r.
Qed.

(** X25. A discovered channel is offered by [/joined] exactly when no
    entry of the registry has its id. *)
Theorem joined_candidates_spec (found : list discovered) (entries : list entry)
    (d : discovered) :
  d ∈ joined_candidates found entries
  <-> d ∈ found /\ Some (d_id d) ∉ map e_id entries.
Proof.
  unfold joined_candidates. rewrite list_elem_of_In, List.filter_In, <- list_elem_of_In.
  rewrite negb_true_iff, bool_decide_eq_false.
  assert (pretty (d_id d) ∈ map (λ e, str_of_id (e_id e)) entries
          <-> Some (d_id d) ∈ map e_id entries) as Hiff.
  { rewrite !list_elem_of_fmap.
    split; intros (e & He & Hin); exists e; split; try done.
    - symmetry. by apply str_of_id_eq.
    - symmetry. by apply str_of_id_eq. }
  by rewrite Hiff.
Qed.
